(** * go-requests (package nhr): URL assembly, request execution, response decoding

    A shallow embedding of the two source files of package [nhr] and the
    properties its specification states about them.

    - Go strings are byte sequences: [string] (a list of 8-bit [ascii]).
    - A Go map is [gomap V]: [None] is the nil map, [Some m] a [gmap string V].
    - A panic is an outcome of its own ([Panic]), never an error value.
    - The standard library the package calls (fmt, strings, net/url, net/http,
      encoding/json) is modelled in the modules [GoFmt], [GoStrings], [NetUrl],
      [NetHttp] and [Http]; what is too large to write out (URL parsing, the
      JSON codecs, the transport) is an interface, the class [StdLib]. *)

From Stdlib Require Import ZArith List String Ascii Bool Lia DecimalString.
From stdpp Require Import base option list gmap strings sorting.

Open Scope Z_scope.

(** ** Outcomes: a value or a panic *)

Inductive outcome (A : Type) : Type :=
| Ret (a : A)
| Panic (msg : string).
Arguments Ret {A} a.
Arguments Panic {A} msg.

Definition bind {A B : Type} (m : outcome A) (k : A -> outcome B) : outcome B :=
  match m with
  | Ret a => k a
  | Panic msg => Panic msg
  end.

Notation "x <- m ;; k" := (bind m (fun x => k))
  (at level 100, m at next level, right associativity).

(** The line feed, written [\n] in the Go sources. *)
Definition LF : string := String (ascii_of_nat 10) "".

(** ** package strings *)

Module GoStrings.

(** [strings.HasPrefix]. *)
Fixpoint HasPrefix (s prefix : string) {struct prefix} : bool :=
  match prefix, s with
  | EmptyString, _ => true
  | String _ _, EmptyString => false
  | String a p, String b s' => Ascii.eqb a b && HasPrefix s' p
  end.

(** [strings.Index]: the byte offset of the first occurrence, -1 if none. *)
Fixpoint Index (s substr : string) : Z :=
  if HasPrefix s substr then 0
  else match s with
       | EmptyString => -1
       | String _ s' => let i := Index s' substr in if i <? 0 then -1 else 1 + i
       end.

(** [strings.Contains(s, substr)] is [Index(s, substr) >= 0]. *)
Definition Contains (s substr : string) : bool := 0 <=? Index s substr.

(** [strings.Cut] with a one-byte separator: the text before the first
    separator, the text after it, and whether it was found. *)
Fixpoint Cut (s : string) (sep : ascii) : string * string * bool :=
  match s with
  | EmptyString => (EmptyString, EmptyString, false)
  | String c s' =>
      if Ascii.eqb c sep then (EmptyString, s', true)
      else let '(before, after, found) := Cut s' sep in (String c before, after, found)
  end.

Definition upper_byte (c : ascii) : ascii :=
  let n := nat_of_ascii c in
  if ((97 <=? n) && (n <=? 122))%nat then ascii_of_nat (n - 32) else c.

(** [strings.ToUpper] as it is on a string of ASCII bytes: the letters [a-z]
    become [A-Z]. On a string with a byte from 128 up Go maps runes instead
    (with [unicode.ToUpper]); the model keeps such bytes as they are, and what
    is proved of upper-casing is either stated for ASCII strings or holds for
    any upper-casing. *)
Fixpoint ToUpper (s : string) : string :=
  match s with
  | EmptyString => EmptyString
  | String c s' => String (upper_byte c) (ToUpper s')
  end.

End GoStrings.

(** ** package fmt *)

Module GoFmt.

(** The values handed to a [%v] verb in this package. *)
Inductive any : Type :=
| AString (s : string)
| AInt (n : Z)
| ABool (b : bool)
| ANil
| AStringer (text : string)   (* a value with a String() or Error() method *).

(** What [%v] prints for a value. *)
Definition fmt_v (x : any) : string :=
  match x with
  | AString s => s
  | AInt n => NilZero.string_of_int (Z.to_int n)
  | ABool true => "true"
  | ABool false => "false"
  | ANil => "<nil>"
  | AStringer text => text
  end.

(** [fmt.Sprintf] for formats whose only verb is [%v]: each verb takes the
    next operand; a verb with no operand left prints [%!v(MISSING)]. *)
Fixpoint Sprintf (format : string) (args : list any) : string :=
  match format with
  | EmptyString => EmptyString
  | String c rest =>
      match rest with
      | String v rest' =>
          if Ascii.eqb c "%" && Ascii.eqb v "v" then
            match args with
            | a :: args' => fmt_v a +:+ Sprintf rest' args'
            | [] => "%!v(MISSING)" +:+ Sprintf rest' []
            end
          else String c (Sprintf rest args)
      | EmptyString => String c EmptyString
      end
  end.

(** [fmt.Errorf]: an error is carried as its [Error()] text. *)
Definition error := string.
Definition Errorf (format : string) (args : list any) : error := Sprintf format args.

End GoFmt.

(** ** The URL assembler (MontageUrl) *)

Module UrlAssembler.
Import GoStrings GoFmt.

(** The conversion [string(b)] of a byte [b]: the UTF-8 encoding of the code
    point [b], one byte below 128 and two bytes from 128 up. *)
Definition string_of_byte (b : ascii) : string :=
  let n := nat_of_ascii b in
  if (n <? 128)%nat then String b EmptyString
  else String (ascii_of_nat (192 + n / 64))
         (String (ascii_of_nat (128 + n mod 64)) EmptyString).

(** The loop [for _, v := range pathParam { newPathParam += Sprintf("/%v", v) }]. *)
Definition joinPathParam (pathParam : list any) : string :=
  fold_left (fun newPathParam v => newPathParam +:+ Sprintf "/%v" [v]) pathParam EmptyString.

(** [MontageUrl(host, apiUrl, pathParam...)]. Indexing [apiUrl[0]] on the empty
    string is a run-time panic. *)
Definition MontageUrl (host apiUrl : string) (pathParam : list any) : outcome string :=
  match apiUrl with
  | EmptyString => Panic "runtime error: index out of range [0] with length 0"
  | String b _ =>
      if negb (String.eqb (string_of_byte b) "/") || Contains apiUrl host then Ret EmptyString
      else if (length pathParam =? 0)%nat then
        Ret (Sprintf "https://%v%v" [AString host; AString apiUrl])
      else
        let newPathParam :=
          if (1 <=? length pathParam)%nat then joinPathParam pathParam else EmptyString in
        Ret (Sprintf "https://%v%v%v" [AString host; AString apiUrl; AString newPathParam])
  end.

(** The specification's words: [sub] occurs in [s]. *)
Definition substring_of (sub s : string) : Prop :=
  exists l r : string, s = l +:+ sub +:+ r.

(** The specification's words: the first byte of [s] is a slash. *)
Definition starts_with_slash (s : string) : Prop :=
  exists rest : string, s = String "/" rest.

End UrlAssembler.

(** ** package net/url: query escaping, [Values], [ParseQuery] *)

Module NetUrl.
Import GoStrings GoFmt.

Definition byte_between (lo hi : nat) (c : ascii) : bool :=
  let n := nat_of_ascii c in ((lo <=? n) && (n <=? hi))%nat.

Definition is_alnum (c : ascii) : bool :=
  byte_between 97 122 c || byte_between 65 90 c || byte_between 48 57 c.

(** [shouldEscape(c, encodeQueryComponent)]: letters, digits and [-_.~] are
    kept; the reserved characters and everything else are escaped. *)
Definition shouldEscape (c : ascii) : bool :=
  if is_alnum c then false
  else if Ascii.eqb c "-" || Ascii.eqb c "_" || Ascii.eqb c "." || Ascii.eqb c "~" then false
  else true.

Definition upperhex : string := "0123456789ABCDEF".

Definition hex_digit (n : nat) : ascii :=
  match String.get n upperhex with
  | Some c => c
  | None => "0"%char
  end.

(** One byte of [escape(s, encodeQueryComponent)]: a space becomes [+], an
    escaped byte [%XX] with [upperhex[c>>4]] and [upperhex[c&15]]. *)
Definition escape_byte (c : ascii) : string :=
  if Ascii.eqb c " " then "+"
  else if shouldEscape c then
    let n := nat_of_ascii c in
    String "%" (String (hex_digit (n / 16)) (String (hex_digit (n mod 16)) EmptyString))
  else String c EmptyString.

(** [url.QueryEscape]. *)
Fixpoint QueryEscape (s : string) : string :=
  match s with
  | EmptyString => EmptyString
  | String c s' => escape_byte c +:+ QueryEscape s'
  end.

Definition ishex (c : ascii) : bool :=
  byte_between 48 57 c || byte_between 97 102 c || byte_between 65 70 c.

Definition unhex (c : ascii) : nat :=
  let n := nat_of_ascii c in
  if byte_between 48 57 c then n - 48
  else if byte_between 97 102 c then n - 97 + 10
  else if byte_between 65 70 c then n - 65 + 10
  else 0.

Inductive result (A : Type) : Type :=
| Ok (a : A)
| Err (err : error).
Arguments Ok {A} a.
Arguments Err {A} err.

Definition DQ : string := String (ascii_of_nat 34) EmptyString.

(** [EscapeError(s).Error()], for text that [strconv.Quote] leaves as it is. *)
Definition EscapeError (s : string) : error := "invalid URL escape " +:+ DQ +:+ s +:+ DQ.

Definition take3 (s : string) : string := String.substring 0 3 s.

(** [url.QueryUnescape]: [%XX] with two hex digits is one byte, [+] a space;
    a [%] not followed by two hex digits is an [EscapeError]. *)
Fixpoint QueryUnescape (s : string) : result string :=
  match s with
  | EmptyString => Ok EmptyString
  | String c rest =>
      if Ascii.eqb c "%" then
        match rest with
        | String h1 (String h2 rest') =>
            if ishex h1 && ishex h2 then
              match QueryUnescape rest' with
              | Ok t => Ok (String (ascii_of_nat (unhex h1 * 16 + unhex h2)) t)
              | Err e => Err e
              end
            else Err (EscapeError (take3 s))
        | _ => Err (EscapeError (take3 s))
        end
      else
        match QueryUnescape rest with
        | Ok t => Ok (String (if Ascii.eqb c "+" then " "%char else c) t)
        | Err e => Err e
        end
  end.

(** [url.Values] is [map[string][]string]. *)
Abbreviation Values := (gmap string (list string)).

(** [Values.Set(key, value)]: the key's list becomes the one value. *)
Definition Values_Set (v : Values) (key value : string) : Values :=
  <[key := [value]]> v.

(** [slices.Sorted(maps.Keys(v))]: the keys in increasing byte order. *)
Definition sorted_keys (v : Values) : list string :=
  merge_sort String.le (fst <$> map_to_list v).

(** One pair written to the builder of [Encode]: an [&] first unless the
    buffer is still empty. *)
Definition write_pair (keyEscaped : string) (buf value : string) : string :=
  (if (String.length buf =? 0)%nat then buf else buf +:+ "&")
    +:+ keyEscaped +:+ "=" +:+ QueryEscape value.

(** [Values.Encode]: [key=value] pairs joined by [&], keys sorted. *)
Definition Encode (v : Values) : string :=
  if (size v =? 0)%nat then EmptyString
  else
    fold_left
      (fun buf k =>
         let vs := default [] (v !! k) in
         let keyEscaped := QueryEscape k in
         fold_left (write_pair keyEscaped) vs buf)
      (sorted_keys v) EmptyString.

Definition first_error (err : option error) (err1 : error) : option error :=
  match err with
  | None => Some err1
  | Some _ => err
  end.

(** The loop of [parseQuery]: [fuel] bounds the number of iterations, each of
    which shortens [query]. *)
Fixpoint parseQuery (fuel : nat) (m : Values) (query : string) (err : option error)
  : Values * option error :=
  match fuel with
  | O => (m, err)
  | S fuel' =>
      match query with
      | EmptyString => (m, err)
      | String _ _ =>
          let '(key, query', _) := Cut query "&" in
          if Contains key ";" then
            parseQuery fuel' m query' (Some (Errorf "invalid semicolon separator in query" []))
          else if (String.length key =? 0)%nat then parseQuery fuel' m query' err
          else
            let '(key, value, _) := Cut key "=" in
            match QueryUnescape key with
            | Err err1 => parseQuery fuel' m query' (first_error err err1)
            | Ok key =>
                match QueryUnescape value with
                | Err err1 => parseQuery fuel' m query' (first_error err err1)
                | Ok value =>
                    parseQuery fuel' (<[key := default [] (m !! key) ++ [value]]> m) query' err
                end
            end
      end
  end.

(** [url.ParseQuery]: the loop runs at most once per byte of [query]. *)
Definition ParseQuery (query : string) : Values * option error :=
  parseQuery (S (String.length query)) ∅ query None.

(** [url.URL]. *)
Record url_URL : Type := mkURL {
  Scheme : string;
  Opaque : string;
  User : option (string * option string);
  Host : string;
  Path : string;
  RawPath : string;
  OmitHost : bool;
  ForceQuery : bool;
  RawQuery : string;
  Fragment : string;
  RawFragment : string
}.

(** The assignment [u.RawQuery = q]. *)
Definition set_RawQuery (u : url_URL) (q : string) : url_URL :=
  mkURL (Scheme u) (Opaque u) (User u) (Host u) (Path u) (RawPath u) (OmitHost u)
    (ForceQuery u) q (Fragment u) (RawFragment u).

(** The assignment [u.Host = h]. *)
Definition set_Host (u : url_URL) (h : string) : url_URL :=
  mkURL (Scheme u) (Opaque u) (User u) h (Path u) (RawPath u) (OmitHost u)
    (ForceQuery u) (RawQuery u) (Fragment u) (RawFragment u).

End NetUrl.

(** ** Go maps, response bodies and the standard-library interface *)

(** A Go map with string keys: [None] is the nil map. *)
Definition gomap (V : Type) : Type := option (gmap string V).

(** The pairs a [for k, v := range m] loop visits; a nil map has none. Go
    leaves the order unspecified: the loops of this package are modelled on
    the order of [map_to_list]. *)
Definition range {V : Type} (m : gomap V) : list (string * V) :=
  match m with
  | None => []
  | Some g => map_to_list g
  end.

Module NetHttp.
Import GoStrings GoFmt NetUrl.

(** A response body as the decoders see it, an [io.ReadCloser]: the bytes it
    delivers, the error a read ends with instead of a clean end of stream (if
    any), whether it was closed, and what closing does to later reads:
    [after_close = Some err] for a body whose reads fail with [err] once it
    is closed (the bodies the transport returns for a response with content),
    [None] for one that reads as before ([http.NoBody], a no-op closer). The
    read position is not tracked. *)
Record Body : Type := mkReadCloser {
  data : string;
  failure : option error;
  closed : bool;
  after_close : option error
}.

(** The body of a response as the HTTP/1 transport returns it: a read after
    [Close] fails. *)
Definition mkBody (data : string) (failure : option error) (closed : bool) : Body :=
  mkReadCloser data failure closed (Some "http: read on closed response body").

(** [Body.Close()]. *)
Definition Close (b : Body) : Body :=
  mkReadCloser (data b) (failure b) true (after_close b).

(** The error a read meets because the body was closed, if it meets one. *)
Definition closed_error (b : Body) : option error :=
  if closed b then after_close b else None.

(** [ioutil.ReadAll]: every byte up to the end of the stream, or the error
    that stopped the reading. *)
Definition ReadAll (b : Body) : result string :=
  match closed_error b with
  | Some err => Err err
  | None =>
      match failure b with
      | Some err => Err err
      | None => Ok (data b)
      end
  end.

(** [http.Response]: the fields the package reads. *)
Record http_Response : Type := mkResponse {
  StatusCode : Z;
  resp_Body : Body
}.

Definition StatusOK : Z := 200.

(** [http.Cookie]: the fields [AddCookie] reads. *)
Record http_Cookie : Type := mkCookie {
  Name : string;
  Value : string;
  Quoted : bool
}.

(** [http.Header] is [map[string][]string]. *)
Abbreviation http_Header := (gmap string (list string)).

(** [http.Request]: what [NewRequest] fills in and the package then changes. *)
Record http_Request : Type := mkRequest {
  req_Method : string;
  req_URL : url_URL;
  req_Header : http_Header;
  req_Body : string;
  req_ContentLength : Z;
  req_Host : string
}.

Definition set_Header (r : http_Request) (h : http_Header) : http_Request :=
  mkRequest (req_Method r) (req_URL r) h (req_Body r) (req_ContentLength r) (req_Host r).

(** [httpguts.IsTokenRune] on bytes: the characters of an HTTP token. *)
Definition isToken (c : ascii) : bool :=
  is_alnum c
  || existsb (Ascii.eqb c) (list_ascii_of_string "!#$%&'*+-.^_`|~").

Definition all_bytes (p : ascii -> bool) (s : string) : bool :=
  forallb p (list_ascii_of_string s).

(** [validMethod]: not empty, and no byte that is not a token character. *)
Definition validMethod (method : string) : bool :=
  negb (String.length method =? 0)%nat && all_bytes isToken method.

Definition lower_byte (c : ascii) : ascii :=
  let n := nat_of_ascii c in
  if byte_between 65 90 c then ascii_of_nat (n + 32) else c.

(** The rewriting loop of [canonicalMIMEHeaderKey]: upper case at the start
    and after a hyphen, lower case elsewhere. *)
Fixpoint canonical_loop (upper : bool) (a : string) : string :=
  match a with
  | EmptyString => EmptyString
  | String c a' =>
      let c' := if upper && byte_between 97 122 c then upper_byte c
                else if negb upper && byte_between 65 90 c then lower_byte c
                else c in
      String c' (canonical_loop (Ascii.eqb c' "-") a')
  end.

(** [textproto.CanonicalMIMEHeaderKey]: a key with a byte that is no token
    character is returned as it is. *)
Definition CanonicalMIMEHeaderKey (s : string) : string :=
  if all_bytes isToken s then canonical_loop true s else s.

(** [Header.Set(key, value)]. *)
Definition Header_Set (h : http_Header) (key value : string) : http_Header :=
  <[CanonicalMIMEHeaderKey key := [value]]> h.

(** [Header.Get(key)]: the first value of the key, or the empty string. *)
Definition Header_Get (h : http_Header) (key : string) : string :=
  match h !! CanonicalMIMEHeaderKey key with
  | Some (v :: _) => v
  | _ => EmptyString
  end.

Fixpoint LastIndexByte (s : string) (c : ascii) : Z :=
  match s with
  | EmptyString => -1
  | String b s' =>
      let i := LastIndexByte s' c in
      if 0 <=? i then 1 + i else if Ascii.eqb b c then 0 else -1
  end.

Fixpoint TrimSuffixByte (s : string) (c : ascii) : string :=
  match s with
  | EmptyString => EmptyString
  | String b EmptyString => if Ascii.eqb b c then EmptyString else s
  | String b s' => String b (TrimSuffixByte s' c)
  end.

(** [removeEmptyPort]: a host ending in a colon with no port loses the colon. *)
Definition removeEmptyPort (host : string) : string :=
  if LastIndexByte host "]" <? LastIndexByte host ":" then TrimSuffixByte host ":" else host.

End NetHttp.

Import GoStrings GoFmt UrlAssembler NetUrl NetHttp.

(** The parts of the Go standard library (and of json-iterator) that are not
    written out: URL parsing and printing, cookie sanitising, the transport
    behind [http.DefaultClient], and the JSON codecs over the dynamic values
    [GoValue] that an [interface{}] holds. *)
Class StdLib : Type := {
  GoValue : Type;
  url_ParseRequestURI : string -> result url_URL;
  url_Parse : string -> result url_URL;
  URL_String : url_URL -> string;
  sanitizeCookieName : string -> string;
  sanitizeCookieValue : string -> bool -> string;
  DefaultClient_Do : http_Request -> result http_Response;
  json_Marshal : gomap GoValue -> result string;
  (** [json.NewDecoder(r).Decode(&ret)] for a nil [map[string]interface{}],
      over the bytes [r] delivers and the error its reads end with. *)
  json_Decode : string -> option error -> result (gomap GoValue);
  fastJson_Marshal : GoValue -> result string;
  (** [fastJson.Unmarshal(data, v)]: the target after the call and the error. *)
  fastJson_Unmarshal : string -> GoValue -> GoValue * option error
}.

Module Http.

(** [http.NewRequest(method, url, strings.NewReader(body))]. *)
Definition NewRequest `{StdLib} (method url body : string) : result http_Request :=
  let method := if (String.length method =? 0)%nat then "GET" else method in
  if negb (validMethod method) then
    Err ("net/http: invalid method " +:+ DQ +:+ method +:+ DQ)
  else
    match url_Parse url with
    | Err err => Err err
    | Ok u =>
        let u := set_Host u (removeEmptyPort (Host u)) in
        Ok (mkRequest method u ∅ body (Z.of_nat (String.length body)) (Host u))
    end.

(** [req.Header.Set(key, value)]. *)
Definition Request_Header_Set (req : http_Request) (key value : string) : http_Request :=
  set_Header req (Header_Set (req_Header req) key value).

(** [req.AddCookie(c)]: the pair joins the [Cookie] header; a nil cookie is a
    nil dereference. *)
Definition AddCookie `{StdLib} (req : http_Request) (c : option http_Cookie)
  : outcome http_Request :=
  match c with
  | None => Panic "runtime error: invalid memory address or nil pointer dereference"
  | Some c =>
      let s := sanitizeCookieName (Name c) +:+ "=" +:+ sanitizeCookieValue (Value c) (Quoted c) in
      let old := Header_Get (req_Header req) "Cookie" in
      if (String.length old =? 0)%nat then Ret (Request_Header_Set req "Cookie" s)
      else Ret (Request_Header_Set req "Cookie" (old +:+ "; " +:+ s))
  end.

(** [json.NewDecoder(body).Decode(&ret)]: the decoder reads the body, and a
    read that fails because the body was closed is the error returned. *)
Definition Decoder_Decode `{StdLib} (b : Body) : result (gomap GoValue) :=
  match closed_error b with
  | Some err => Err err
  | None => json_Decode (data b) (failure b)
  end.

End Http.

Import Http.

(** ** package nhr: http_handler.go *)

Module nhr.

(** [time.Duration] counts nanoseconds. *)
Definition Second : Z := 1000000000.

(** [type HttpRequests struct]. [Cookies] is a slice of cookie pointers, each
    possibly nil; a nil slice is the empty list. *)
Record HttpRequests : Type := mkHttpRequests {
  Method : string;
  URL : string;
  Headers : gomap string;
  Cookies : list (option http_Cookie);
  Timeout : Z;
  PostBody : string;
  Params : string
}.

(** [type Option func(req *HttpRequests)]: the descriptor after the call, or the
    panic the call ended in. *)
Definition Option : Type := HttpRequests -> outcome HttpRequests.

(** [WithHeaders]: [req.Headers = headers]. *)
Definition WithHeaders (headers : gomap string) : Option :=
  fun req =>
    Ret (mkHttpRequests (Method req) (URL req) headers (Cookies req) (Timeout req)
           (PostBody req) (Params req)).

(** [WithTimeout]: [req.Timeout = timeout]. *)
Definition WithTimeout (timeout : Z) : Option :=
  fun req =>
    Ret (mkHttpRequests (Method req) (URL req) (Headers req) (Cookies req) timeout
           (PostBody req) (Params req)).

(** [WithCookies]: [req.Cookies = cookies]. *)
Definition WithCookies (cookies : list (option http_Cookie)) : Option :=
  fun req =>
    Ret (mkHttpRequests (Method req) (URL req) (Headers req) cookies (Timeout req)
           (PostBody req) (Params req)).

(** The loop [for k, v := range params { urlParams.Set(k, v) }] from
    [url.Values{}], over the pairs in the order the loop visits them. *)
Definition collectParams (visited : list (string * string)) : Values :=
  fold_left (fun urlParams kv => Values_Set urlParams (fst kv) (snd kv)) visited ∅.

(** [WithParams]: [req.Params = urlParams.Encode()]. *)
Definition WithParams (params : gomap string) : Option :=
  fun req =>
    let urlParams := collectParams (range params) in
    Ret (mkHttpRequests (Method req) (URL req) (Headers req) (Cookies req) (Timeout req)
           (PostBody req) (Encode urlParams)).

(** [WithPostJsonBody]: a marshalling error is a panic. *)
Definition WithPostJsonBody `{StdLib} (data : gomap GoValue) : Option :=
  fun req =>
    match json_Marshal data with
    | Err _ => Panic "convert postBody to string error"
    | Ok dataToStr =>
        Ret (mkHttpRequests (Method req) (URL req) (Headers req) (Cookies req) (Timeout req)
               dataToStr (Params req))
    end.

(** [WithPostStringBody]: [req.PostBody = data]. *)
Definition WithPostStringBody (data : string) : Option :=
  fun req =>
    Ret (mkHttpRequests (Method req) (URL req) (Headers req) (Cookies req) (Timeout req)
           data (Params req)).

(** The loop [for key, value := range requestIns.Headers { req.Header.Set(key, value) }]. *)
Definition setHeaders (req : http_Request) (headers : gomap string) : http_Request :=
  fold_left (fun req kv => Request_Header_Set req (fst kv) (snd kv)) (range headers) req.

(** The loop [for _, v := range requestIns.Cookies { req.AddCookie(v) }]; the
    guard before it only skips the empty slice. *)
Fixpoint addCookies `{StdLib} (req : http_Request) (cookies : list (option http_Cookie))
  : outcome http_Request :=
  match cookies with
  | [] => Ret req
  | v :: rest => req' <- AddCookie req v ;; addCookies req' rest
  end.

(** What a call wrote to standard output, and how it ended. *)
Definition run (A : Type) : Type := list string * outcome A.

(** [createRequest] up to the call of [http.DefaultClient.Do]: the request
    handed to the client, or [None] where the function has returned nil. *)
Definition outboundRequest `{StdLib} (requestIns : HttpRequests) : run (option http_Request) :=
  match url_ParseRequestURI (URL requestIns) with
  | Err err =>
      ([], Panic (Sprintf ("parse url requestUrl failed, err:%v" +:+ LF) [AStringer err]))
  | Ok urlObj =>
      let urlObj := set_RawQuery urlObj (Params requestIns) in
      match NewRequest (Method requestIns) (URL_String urlObj) (PostBody requestIns) with
      | Err _ => (["create request instance failed" +:+ LF], Ret None)
      | Ok req =>
          let req := setHeaders req (Headers requestIns) in
          ([], req' <- addCookies req (Cookies requestIns) ;; Ret (Some req'))
      end
  end.

(** [createRequest]: the response pointer returned ([None] is nil). *)
Definition createRequest `{StdLib} (requestIns : HttpRequests) : run (option http_Response) :=
  match outboundRequest requestIns with
  | (out, Panic msg) => (out, Panic msg)
  | (out, Ret None) => (out, Ret None)
  | (out, Ret (Some req)) =>
      match DefaultClient_Do req with
      | Err err => (out, Panic (Sprintf ("send request error:%v" +:+ LF) [AString err]))
      | Ok response => (out, Ret (Some response))
      end
  end.

(** The descriptor [HttpCaller] starts from. *)
Definition newRequestIns (method url : string) : HttpRequests :=
  mkHttpRequests (ToUpper method) url
    (Some {["Content-Type" := "application/json"]}) [] (3 * Second) EmptyString EmptyString.

(** The loop [for _, opt := range options { opt(RequestIns) }]. *)
Fixpoint applyOptions (options : list Option) (RequestIns : HttpRequests)
  : outcome HttpRequests :=
  match options with
  | [] => Ret RequestIns
  | opt :: rest => RequestIns' <- opt RequestIns ;; applyOptions rest RequestIns'
  end.

(** [HttpCaller]. *)
Definition HttpCaller `{StdLib} (method url : string) (options : list Option)
  : run (option http_Response) :=
  match applyOptions options (newRequestIns method url) with
  | Panic msg => ([], Panic msg)
  | Ret RequestIns => createRequest RequestIns
  end.

(** The request [HttpCaller] hands to the client. *)
Definition HttpCaller_request `{StdLib} (method url : string) (options : list Option)
  : run (option http_Request) :=
  match applyOptions options (newRequestIns method url) with
  | Panic msg => ([], Panic msg)
  | Ret RequestIns => outboundRequest RequestIns
  end.

Definition nil_dereference : string :=
  "runtime error: invalid memory address or nil pointer dereference".

Definition close_body (r : http_Response) : http_Response :=
  mkResponse (StatusCode r) (Close (resp_Body r)).

(** [responseToBytes]: the response after the deferred [Body.Close()], and the
    bytes or the error returned. *)
Definition responseToBytes (responseIns : option http_Response)
  : outcome (http_Response * result string) :=
  match responseIns with
  | None => Panic nil_dereference
  | Some r =>
      let ret :=
        if negb (StatusCode r =? StatusOK) then
          Err (Errorf "request status code not 200，actually status code is %v"
                 [AInt (StatusCode r)])
        else
          match ReadAll (resp_Body r) with
          | Err err => Err (Errorf "read from response.Body failed:%v" [AStringer err])
          | Ok bodyRet => Ok bodyRet
          end in
      Ret (close_body r, ret)
  end.

(** [FastJsonMarshal] and [FastJsonUnMarshal] (json.go). *)
Definition FastJsonMarshal `{StdLib} (v : GoValue) : result string := fastJson_Marshal v.

Definition FastJsonUnMarshal `{StdLib} (data : string) (v : GoValue) : GoValue * option error :=
  fastJson_Unmarshal data v.

(** [ResponseToStruct]: the response and the target after the call, and the
    error returned ([None] is nil). *)
Definition ResponseToStruct `{StdLib} (responseIns : option http_Response) (v : GoValue)
  : outcome (http_Response * GoValue * option error) :=
  match responseToBytes responseIns with
  | Panic msg => Panic msg
  | Ret (r, Err err) =>
      Ret (r, v, Some (Errorf "response to bytes error:%v" [AStringer err]))
  | Ret (r, Ok responseBytesSlice) =>
      let '(v', err) := FastJsonUnMarshal responseBytesSlice v in
      match err with
      | Some err =>
          Ret (r, v', Some (Errorf "unMarshal response bytes slice error:%v" [AStringer err]))
      | None => Ret (r, v', None)
      end
  end.

(** [ResponseToMap]: the response after the call and the map returned. *)
Definition ResponseToMap `{StdLib} (responseIns : option http_Response)
  : outcome (http_Response * gomap GoValue) :=
  match responseIns with
  | None => Panic nil_dereference
  | Some r =>
      match Decoder_Decode (resp_Body r) with
      | Err _ => Ret (close_body r, None)
      | Ok ret => Ret (close_body r, ret)
      end
  end.

End nhr.

Import nhr.

(** ** Two option lists that differ only in their timeouts *)

(** [same_but_timeout os1 os2]: the two lists of options of this package are
    the same once every [WithTimeout] is left out of both. *)
Inductive same_but_timeout `{StdLib} : list Option -> list Option -> Prop :=
| sbt_nil : same_but_timeout [] []
| sbt_headers h os1 os2 :
    same_but_timeout os1 os2 -> same_but_timeout (WithHeaders h :: os1) (WithHeaders h :: os2)
| sbt_cookies c os1 os2 :
    same_but_timeout os1 os2 -> same_but_timeout (WithCookies c :: os1) (WithCookies c :: os2)
| sbt_params p os1 os2 :
    same_but_timeout os1 os2 -> same_but_timeout (WithParams p :: os1) (WithParams p :: os2)
| sbt_json d os1 os2 :
    same_but_timeout os1 os2 ->
    same_but_timeout (WithPostJsonBody d :: os1) (WithPostJsonBody d :: os2)
| sbt_string d os1 os2 :
    same_but_timeout os1 os2 ->
    same_but_timeout (WithPostStringBody d :: os1) (WithPostStringBody d :: os2)
| sbt_timeout_l t os1 os2 :
    same_but_timeout os1 os2 -> same_but_timeout (WithTimeout t :: os1) os2
| sbt_timeout_r t os1 os2 :
    same_but_timeout os1 os2 -> same_but_timeout os1 (WithTimeout t :: os2).

(** Two descriptors that agree on every field but [Timeout]. *)
Definition same_but_Timeout (a b : HttpRequests) : Prop :=
  Method a = Method b /\ URL a = URL b /\ Headers a = Headers b /\ Cookies a = Cookies b
  /\ PostBody a = PostBody b /\ Params a = Params b.

(** Options that differ only in timeouts end alike: both panic with the same
    message, or both return descriptors equal up to [Timeout]. *)
Definition alike (x y : outcome HttpRequests) : Prop :=
  match x, y with
  | Ret a, Ret b => same_but_Timeout a b
  | Panic m1, Panic m2 => m1 = m2
  | _, _ => False
  end.

(** Two parsed URLs that agree on every field but [RawQuery]. *)
Definition same_but_RawQuery (u1 u2 : url_URL) : Prop :=
  set_RawQuery u1 "" = set_RawQuery u2 "".

(** ** The alphabet of an encoded query *)

(** The bytes [QueryEscape] writes: letters, digits, [-_.~], and the [%] and
    [+] of the escapes. *)
Definition query_byte (c : ascii) : bool :=
  is_alnum c || existsb (Ascii.eqb c) (list_ascii_of_string "-_.~%+").

(** The bytes of an encoded query string: those and the two separators. *)
Definition encoded_byte (c : ascii) : bool :=
  query_byte c || Ascii.eqb c "=" || Ascii.eqb c "&".

(** [lacks c s]: the byte [c] does not occur in [s]. *)
Definition lacks (c : ascii) (s : string) : bool :=
  all_bytes (fun b => negb (Ascii.eqb b c)) s.

(** One [key=value] pair of an encoded query. *)
Definition encode_pair (kv : string * string) : string :=
  QueryEscape (fst kv) +:+ "=" +:+ QueryEscape (snd kv).

(** The pairs joined by [&]. *)
Fixpoint encode_pairs (l : list (string * string)) : string :=
  match l with
  | [] => EmptyString
  | [kv] => encode_pair kv
  | kv :: rest => encode_pair kv +:+ "&" +:+ encode_pairs rest
  end.

(** The pairs [Encode] writes for the keys [keys] of a map with one value a key. *)
Definition pairs_of (g : gmap string string) (keys : list string) : list (string * string) :=
  (fun k => (k, default "" (g !! k))) <$> keys.

(** What [parseQuery] does with one pair: the value joins the key's list. *)
Definition add_value (m : Values) (kv : string * string) : Values :=
  <[fst kv := default [] (m !! fst kv) ++ [snd kv]]> m.

(** The map a query decodes to when each key of [params] has its one value. *)
Definition decoded (params : gomap string) : Values :=
  (fun v => [v]) <$> default ∅ params.

(** ** A small instance of the library interface, to run the model *)

Module Demo.

(** Dynamic values: a number, a text, and a channel (which JSON cannot carry). *)
Inductive value : Type :=
| VNum (n : Z)
| VText (s : string)
| VChan.

Definition is_empty (s : string) : bool := (String.length s =? 0)%nat.

Definition drop2 (s : string) : string :=
  match s with
  | String _ (String _ rest) => rest
  | _ => EmptyString
  end.

(** URLs of the shapes [/path?query] and [scheme://host/path?query], with no
    escapes, user information or fragment. *)
Definition parseRequestURI (rawURL : string) : result url_URL :=
  let '(rest, query, found) := Cut rawURL "?" in
  let force := found && is_empty query in
  if HasPrefix rest "/" then
    Ok (mkURL "" "" None "" rest "" false force query "" "")
  else
    let '(scheme, after, colon) := Cut rest ":" in
    if colon && negb (is_empty scheme) && HasPrefix after "//" then
      let '(host, path, slash) := Cut (drop2 after) "/" in
      Ok (mkURL scheme "" None host (if slash then String "/" path else "") "" false
            force query "" "")
    else Err ("parse " +:+ DQ +:+ rawURL +:+ DQ +:+ ": invalid URI for request").

Definition urlString (u : url_URL) : string :=
  (if is_empty (Scheme u) then "" else Scheme u +:+ "://" +:+ Host u)
    +:+ Path u
    +:+ (if ForceQuery u || negb (is_empty (RawQuery u)) then "?" +:+ RawQuery u else "").

(** A transport in which one host is down and every other answers 200 with
    an empty JSON object. *)
Definition roundTrip (req : http_Request) : result http_Response :=
  if String.eqb (req_Host req) "down.test" then
    Err "dial tcp: connect: connection refused"
  else Ok (mkResponse 200 (mkBody "{}" None false)).

Definition render (v : value) : result string :=
  match v with
  | VNum n => Ok (fmt_v (AInt n))
  | VText s => Ok (DQ +:+ s +:+ DQ)
  | VChan => Err "json: unsupported type: chan int"
  end.

Fixpoint renderPairs (l : list (string * value)) : result (list string) :=
  match l with
  | [] => Ok []
  | (k, v) :: rest =>
      match render v, renderPairs rest with
      | Ok s, Ok ss => Ok ((DQ +:+ k +:+ DQ +:+ ":" +:+ s) :: ss)
      | Err e, _ => Err e
      | _, Err e => Err e
      end
  end.

Definition marshalMap (m : gomap value) : result string :=
  match m with
  | None => Ok "null"
  | Some g =>
      match renderPairs (map_to_list g) with
      | Ok ss => Ok ("{" +:+ String.concat "," ss +:+ "}")
      | Err e => Err e
      end
  end.

(** A decoder that knows the empty object and [null] only. *)
Definition decodeMap (bytes : string) (failure : option error) : result (gomap value) :=
  if String.eqb bytes "{}" then Ok (Some ∅)
  else if String.eqb bytes "null" then Ok None
  else match failure with
       | Some e => Err e
       | None => Err "invalid character looking for beginning of value"
       end.

(** An unmarshaller that knows decimal numbers only. *)
Definition unmarshal (bytes : string) (v : value) : value * option error :=
  match NilZero.int_of_string bytes with
  | Some n => (VNum (Z.of_int n), None)
  | None => (v, Some "invalid character looking for beginning of value")
  end.

#[export] Instance demoLib : StdLib := {|
  GoValue := value;
  url_ParseRequestURI := parseRequestURI;
  url_Parse := parseRequestURI;
  URL_String := urlString;
  sanitizeCookieName := fun n => n;
  sanitizeCookieValue := fun v _ => v;
  DefaultClient_Do := roundTrip;
  json_Marshal := marshalMap;
  json_Decode := decodeMap;
  fastJson_Marshal := render;
  fastJson_Unmarshal := unmarshal
|}.

End Demo.

(** An option that assigns one field other than [Timeout], or [Timeout] on one
    side only, keeps the two descriptors equal on the other fields. *)
Ltac fields_agree IH Hab :=
  apply IH; destruct Hab as (? & ? & ? & ? & ? & ?); repeat split; assumption.

(** ** The options of the package, and what an option leaves alone *)

(** The options the package itself provides. *)
Inductive library_option `{StdLib} : Option -> Prop :=
| lo_headers h : library_option (WithHeaders h)
| lo_timeout t : library_option (WithTimeout t)
| lo_cookies c : library_option (WithCookies c)
| lo_params p : library_option (WithParams p)
| lo_json d : library_option (WithPostJsonBody d)
| lo_string s : library_option (WithPostStringBody s).

(** [preserves f o]: the option [o] never changes what [f] reads off a
    descriptor. *)
Definition preserves {A : Type} (f : HttpRequests -> A) (o : Option) : Prop :=
  forall d d', o d = Ret d' -> f d' = f d.

(** The [name=value] text [AddCookie] writes for a cookie. *)
Definition cookie_pair `{StdLib} (c : http_Cookie) : string :=
  sanitizeCookieName (Name c) +:+ "=" +:+ sanitizeCookieValue (Value c) (Quoted c).

(** A byte below 128, an ASCII character. *)
Definition is_ascii_byte (c : ascii) : bool := (nat_of_ascii c <? 128)%nat.

(** The URL [MontageUrl] builds once its guard has let the path through. *)
Definition assembled (host apiUrl : string) (segs : list any) : string :=
  fold_left (fun url seg => url +:+ "/" +:+ fmt_v seg) segs ("https://" +:+ host +:+ apiUrl).

(** * Properties *)

(** ** Strings *)

Lemma append_nil_l (s : string) : "" +:+ s = s.
Proof. reflexivity. Qed.

Lemma append_cons (c : ascii) (s t : string) : String c s +:+ t = String c (s +:+ t).
Proof. reflexivity. Qed.

Lemma append_nil_r (s : string) : s +:+ "" = s.
Proof.
  induction s as [|c s IH]; [reflexivity|]. now rewrite append_cons, IH.
Qed.

Lemma append_assoc (s t u : string) : (s +:+ t) +:+ u = s +:+ (t +:+ u).
Proof.
  induction s as [|c s IH]; [reflexivity|]. now rewrite !append_cons, IH.
Qed.

Lemma HasPrefix_spec (s p : string) :
  HasPrefix s p = true <-> exists r, s = p +:+ r.
Proof.
  revert s; induction p as [|a p IH]; intros s; simpl.
  - split; [intros _; now exists s | reflexivity].
  - destruct s as [|b s]; simpl.
    + split; [discriminate | intros [r Hr]; discriminate].
    + rewrite andb_true_iff, Ascii.eqb_eq, IH. split.
      * intros [-> [r ->]]. now exists r.
      * intros [r Hr]. rewrite append_cons in Hr. injection Hr as -> ->.
        split; [reflexivity | now exists r].
Qed.

Lemma Index_lower_bound (s sub : string) : -1 <= Index s sub.
Proof.
  induction s as [|c s IH]; simpl.
  - destruct (HasPrefix "" sub); lia.
  - destruct (HasPrefix (String c s) sub); [lia|].
    destruct (Z.ltb_spec (Index s sub) 0); lia.
Qed.

Lemma Contains_spec (s sub : string) :
  Contains s sub = true <-> substring_of sub s.
Proof.
  unfold Contains, substring_of. rewrite Z.leb_le. split.
  - induction s as [|c s IH].
    + simpl. destruct (HasPrefix "" sub) eqn:E; [|lia]. intros _.
      apply HasPrefix_spec in E as [r Hr]. now exists ""%string, r.
    + cbn [Index]. destruct (HasPrefix (String c s) sub) eqn:E.
      * intros _. apply HasPrefix_spec in E as [r Hr]. now exists ""%string, r.
      * destruct (Z.ltb_spec (Index s sub) 0) as [Hneg|Hpos]; [lia|]. intros _.
        destruct (IH Hpos) as (l & r & ->). now exists (String c l), r.
  - intros (l & r & ->). induction l as [|c l IH].
    + simpl. assert (E : HasPrefix (sub +:+ r) sub = true)
        by (apply HasPrefix_spec; now exists r).
      rewrite append_nil_l. destruct (sub +:+ r); cbn [Index]; rewrite E; lia.
    + rewrite append_cons. cbn [Index].
      destruct (HasPrefix _ sub); [lia|].
      destruct (Z.ltb_spec (Index (l +:+ sub +:+ r) sub) 0); lia.
Qed.

Lemma Contains_false_spec (s sub : string) :
  Contains s sub = false <-> ~ substring_of sub s.
Proof.
  rewrite <- Contains_spec. destruct (Contains s sub); split; try congruence; tauto.
Qed.

(** ** MontageUrl *)

Lemma string_of_byte_slash (b : ascii) :
  String.eqb (string_of_byte b) "/" = Ascii.eqb b "/".
Proof.
  destruct b as [[] [] [] [] [] [] [] []]; reflexivity.
Qed.

Lemma Sprintf_host_path (host apiUrl : string) :
  Sprintf "https://%v%v" [AString host; AString apiUrl] = "https://" +:+ host +:+ apiUrl.
Proof.
  transitivity ("https://" +:+ host +:+ apiUrl +:+ ""); [reflexivity|].
  now rewrite append_nil_r.
Qed.

Lemma Sprintf_host_path_params (host apiUrl newPathParam : string) :
  Sprintf "https://%v%v%v" [AString host; AString apiUrl; AString newPathParam]
  = "https://" +:+ host +:+ apiUrl +:+ newPathParam.
Proof.
  transitivity ("https://" +:+ host +:+ apiUrl +:+ newPathParam +:+ ""); [reflexivity|].
  now rewrite append_nil_r.
Qed.

Lemma Sprintf_segment (v : any) : Sprintf "/%v" [v] = "/" +:+ fmt_v v.
Proof.
  transitivity ("/" +:+ fmt_v v +:+ ""); [reflexivity|]. now rewrite append_nil_r.
Qed.

Lemma joinPathParam_from (base acc : string) (segs : list any) :
  base +:+ fold_left (fun newPathParam v => newPathParam +:+ Sprintf "/%v" [v]) segs acc
  = fold_left (fun url seg => url +:+ "/" +:+ fmt_v seg) segs (base +:+ acc).
Proof.
  revert acc; induction segs as [|v segs IH]; intros acc; cbn [fold_left]; [reflexivity|].
  rewrite IH, Sprintf_segment, !append_assoc. reflexivity.
Qed.

(** The guard of [MontageUrl] on a path that is not empty. *)
Lemma MontageUrl_guard (host : string) (b : ascii) (rest : string) (pathParam : list any) :
  b <> "/"%char \/ substring_of host (String b rest) ->
  MontageUrl host (String b rest) pathParam = Ret "".
Proof.
  intros H. unfold MontageUrl. rewrite string_of_byte_slash.
  destruct H as [H|H].
  - apply Ascii.eqb_neq in H. now rewrite H.
  - apply Contains_spec in H. rewrite H. now rewrite orb_true_r.
Qed.

(** C1 (the code departs from the specification here): on the empty path, which does not
    start with a slash, [MontageUrl] panics on [apiUrl[0]] whatever the host and
    the segments are; it does not return the empty string. *)
Theorem MontageUrl_empty_path_panics (host : string) (pathParam : list any) :
  MontageUrl host "" pathParam = Panic "runtime error: index out of range [0] with length 0"
  /\ MontageUrl host "" pathParam <> Ret "".
Proof. split; [reflexivity | discriminate]. Qed.

(** C2: for a path that starts with a slash and does not contain the host,
    [MontageUrl] with no segment returns [https://] + host + path, and with
    segments returns that string with [/] + the printed segment appended for
    each segment in the order given. *)
Theorem MontageUrl_assembles (host path : string) (segs : list any) :
  starts_with_slash path ->
  ~ substring_of host path ->
  MontageUrl host path [] = Ret ("https://" +:+ host +:+ path)
  /\ MontageUrl host path segs
     = Ret (fold_left (fun url seg => url +:+ "/" +:+ fmt_v seg) segs
              ("https://" +:+ host +:+ path)).
Proof.
  intros [rest ->] Hno. apply Contains_false_spec in Hno.
  unfold MontageUrl. rewrite string_of_byte_slash, Hno, Ascii.eqb_refl.
  cbn [negb orb length Nat.eqb].
  rewrite Sprintf_host_path. split; [reflexivity|].
  destruct segs as [|v segs]; [reflexivity|].
  cbn [length Nat.eqb Nat.leb]. rewrite Sprintf_host_path_params.
  unfold joinPathParam. f_equal.
  pose proof (joinPathParam_from ("https://" +:+ host +:+ String "/" rest) "" (v :: segs)) as E.
  rewrite append_nil_r in E. rewrite <- E. now rewrite !append_assoc.
Qed.

Lemma MontageUrl_assembles_witness :
  MontageUrl "h.io" "/api" [] = Ret "https://h.io/api"
  /\ MontageUrl "h.io" "/api" [AString "334"; AInt 456] = Ret "https://h.io/api/334/456".
Proof.
  apply (MontageUrl_assembles "h.io" "/api" [AString "334"; AInt 456]).
  - now exists "api"%string.
  - apply Contains_false_spec. reflexivity.
Defined.

(** ** Options *)

Section Handler.
Context `{L : StdLib}.

(** C5: [WithHeaders h1] and then [WithHeaders h2] leave the descriptor with
    the header mapping [h2] and every other field as it was; from the
    descriptor [HttpCaller] starts with, the default [Content-Type] entry is
    gone unless [h2] has it. *)
Theorem WithHeaders_twice_keeps_second (h1 h2 : gomap string) (req : HttpRequests)
    (method url : string) :
  applyOptions [WithHeaders h1; WithHeaders h2] req
  = Ret (mkHttpRequests (Method req) (URL req) h2 (Cookies req) (Timeout req)
           (PostBody req) (Params req))
  /\ applyOptions [WithHeaders h1; WithHeaders h2] (newRequestIns method url)
     = Ret (mkHttpRequests (ToUpper method) url h2 [] (3 * Second) "" "").
Proof. split; reflexivity. Qed.

(** The headers of the request sent after two [WithHeaders] are those set
    from the second mapping alone. *)
Lemma WithHeaders_twice_request (h1 h2 : gomap string) (method url : string) :
  HttpCaller_request method url [WithHeaders h1; WithHeaders h2]
  = HttpCaller_request method url [WithHeaders h2].
Proof. reflexivity. Qed.

(** ** The timeout *)

Lemma same_but_Timeout_refl (a : HttpRequests) : same_but_Timeout a a.
Proof. repeat split. Qed.

Lemma outboundRequest_ignores_Timeout (a b : HttpRequests) :
  same_but_Timeout a b -> outboundRequest a = outboundRequest b.
Proof.
  destruct a, b. unfold same_but_Timeout. cbn.
  intros (-> & -> & -> & -> & -> & ->). reflexivity.
Qed.

Lemma createRequest_ignores_Timeout (a b : HttpRequests) :
  same_but_Timeout a b -> createRequest a = createRequest b.
Proof.
  intros H. unfold createRequest. now rewrite (outboundRequest_ignores_Timeout a b H).
Qed.

Lemma applyOptions_same_but_timeout (os1 os2 : list Option) :
  same_but_timeout os1 os2 ->
  forall a b, same_but_Timeout a b -> alike (applyOptions os1 a) (applyOptions os2 b).
Proof.
  induction 1 as [|h os1 os2 _ IH|c os1 os2 _ IH|p os1 os2 _ IH|d os1 os2 _ IH
                 |d os1 os2 _ IH|t os1 os2 _ IH|t os1 os2 _ IH];
    intros a b Hab; cbn [applyOptions bind];
    try (fields_agree IH Hab).
  - exact Hab.
  - unfold WithPostJsonBody. destruct (json_Marshal d); cbn [bind alike]; [|reflexivity].
    fields_agree IH Hab.
Qed.

(** C9: two calls of [HttpCaller] whose options differ only in the timeouts
    given through [WithTimeout] (none given leaves the 3-second default) hand
    the same request to the client and end the same way: [Timeout] is written
    and never read. *)
Theorem HttpCaller_timeout_inert (method url : string) (os1 os2 : list Option) :
  same_but_timeout os1 os2 ->
  HttpCaller_request method url os1 = HttpCaller_request method url os2
  /\ HttpCaller method url os1 = HttpCaller method url os2.
Proof.
  intros H.
  pose proof (applyOptions_same_but_timeout os1 os2 H _ _
                (same_but_Timeout_refl (newRequestIns method url))) as Ha.
  unfold HttpCaller_request, HttpCaller, alike in *.
  destruct (applyOptions os1 _) as [a|m1], (applyOptions os2 _) as [b|m2];
    try contradiction.
  - split; [now apply outboundRequest_ignores_Timeout | now apply createRequest_ignores_Timeout].
  - subst. split; reflexivity.
Qed.

End Handler.

Lemma HttpCaller_timeout_inert_witness :
  @HttpCaller_request Demo.demoLib "get" "https://h.io/a"
     [WithHeaders (Some {["X-Id" := "7"]}); WithTimeout (10 * Second)]
  = @HttpCaller_request Demo.demoLib "get" "https://h.io/a"
     [WithTimeout 1; WithHeaders (Some {["X-Id" := "7"]})]
  /\ @HttpCaller Demo.demoLib "get" "https://h.io/a"
       [WithHeaders (Some {["X-Id" := "7"]}); WithTimeout (10 * Second)]
     = @HttpCaller Demo.demoLib "get" "https://h.io/a"
       [WithTimeout 1; WithHeaders (Some {["X-Id" := "7"]})].
Proof.
  apply (@HttpCaller_timeout_inert Demo.demoLib).
  apply sbt_timeout_r, sbt_headers, sbt_timeout_l, sbt_nil.
Defined.

(** ** The executor *)

Section Executor.
Context `{L : StdLib}.

(** What [createRequest] does once the URL has parsed to [urlObj]. *)
Lemma outboundRequest_parsed (d : HttpRequests) (urlObj : url_URL) :
  url_ParseRequestURI (URL d) = Ok urlObj ->
  outboundRequest d
  = match NewRequest (Method d) (URL_String (set_RawQuery urlObj (Params d))) (PostBody d) with
    | Err _ => (["create request instance failed" +:+ LF], Ret None)
    | Ok req =>
        ([], req' <- addCookies (setHeaders req (Headers d)) (Cookies d) ;; Ret (Some req'))
    end.
Proof. intros H. unfold outboundRequest. now rewrite H. Qed.

Lemma set_RawQuery_same_but (u1 u2 : url_URL) (q : string) :
  same_but_RawQuery u1 u2 -> set_RawQuery u1 q = set_RawQuery u2 q.
Proof.
  destruct u1, u2. unfold same_but_RawQuery, set_RawQuery. cbn.
  intros H. injection H as -> -> -> -> -> -> -> -> -> ->. reflexivity.
Qed.

(** C7: once the URL string has parsed, the request is built from the parsed
    URL with [RawQuery] set to the descriptor's [Params], empty or not; so two
    URL strings whose parsed forms differ only in their query give the same
    request: the query written in the URL argument is dropped. *)
Theorem createRequest_overwrites_query (d d' : HttpRequests) (urlObj urlObj' : url_URL) :
  url_ParseRequestURI (URL d) = Ok urlObj ->
  (outboundRequest d
   = match NewRequest (Method d) (URL_String (set_RawQuery urlObj (Params d))) (PostBody d) with
     | Err _ => (["create request instance failed" +:+ LF], Ret None)
     | Ok req =>
         ([], req' <- addCookies (setHeaders req (Headers d)) (Cookies d) ;; Ret (Some req'))
     end)
  /\ RawQuery (set_RawQuery urlObj (Params d)) = Params d
  /\ (url_ParseRequestURI (URL d') = Ok urlObj' ->
      same_but_RawQuery urlObj urlObj' ->
      Method d' = Method d -> Headers d' = Headers d -> Cookies d' = Cookies d ->
      PostBody d' = PostBody d -> Params d' = Params d ->
      outboundRequest d' = outboundRequest d /\ createRequest d' = createRequest d).
Proof.
  intros Hp. split; [now apply outboundRequest_parsed|]. split; [reflexivity|].
  intros Hp' Hq Hm Hh Hc Hb Hpar.
  assert (E : outboundRequest d' = outboundRequest d).
  { rewrite (outboundRequest_parsed d urlObj Hp), (outboundRequest_parsed d' urlObj' Hp').
    rewrite Hm, Hh, Hc, Hb, Hpar.
    now rewrite (set_RawQuery_same_but urlObj urlObj' (Params d) Hq). }
  split; [exact E|]. unfold createRequest. now rewrite E.
Qed.

(** C8: a marshalling error in [WithPostJsonBody], a URL that does not parse,
    and a transport error each end the call in a panic, with no error value:
    [HttpCaller] panics at the option, [createRequest] at the parse and at the
    send. *)
Theorem fatal_failures_panic :
  (forall data e req method url before after d,
      json_Marshal data = Err e ->
      applyOptions before (newRequestIns method url) = Ret d ->
      WithPostJsonBody data req = Panic "convert postBody to string error"
      /\ HttpCaller method url (before ++ WithPostJsonBody data :: after)
         = ([], Panic "convert postBody to string error"))
  /\ (forall d e,
        url_ParseRequestURI (URL d) = Err e ->
        createRequest d = ([], Panic ("parse url requestUrl failed, err:" +:+ e +:+ LF)))
  /\ (forall d out req e,
        outboundRequest d = (out, Ret (Some req)) ->
        DefaultClient_Do req = Err e ->
        createRequest d = (out, Panic ("send request error:" +:+ e +:+ LF))).
Proof.
  split; [|split].
  - intros data e req method url before after d Hm Hb.
    assert (Hw : forall r, WithPostJsonBody data r = Panic "convert postBody to string error")
      by (intros r; unfold WithPostJsonBody; now rewrite Hm).
    split; [apply Hw|]. unfold HttpCaller.
    assert (E : forall os a, applyOptions os a = Ret d ->
                applyOptions (os ++ WithPostJsonBody data :: after) a
                = Panic "convert postBody to string error").
    { induction os as [|o os IH]; intros a Ha; cbn [applyOptions app bind] in *.
      - injection Ha as ->. now rewrite Hw.
      - destruct (o a) as [a'|m]; cbn [bind] in *; [now apply IH | discriminate]. }
    now rewrite (E _ _ Hb).
  - intros d e Hp. unfold createRequest, outboundRequest. rewrite Hp. reflexivity.
  - intros d out req e Ho Hd. unfold createRequest. rewrite Ho, Hd. reflexivity.
Qed.

(** [http.NewRequest] refuses a method that is not empty and has a byte that is
    no token character. *)
Lemma NewRequest_invalid_method (method url body : string) :
  (String.length method =? 0)%nat = false ->
  validMethod method = false ->
  exists e, NewRequest method url body = Err e.
Proof.
  intros Hne Hv. unfold NewRequest. rewrite Hne, Hv. cbn [negb]. eauto.
Qed.

(** C10: when [http.NewRequest] returns an error, as it does for a method with
    a character that is no token character, [createRequest] prints a line and
    returns nil, so [HttpCaller] returns a nil response with no panic and no
    error value; either decoder then dereferences nil and panics. *)
Theorem NewRequest_failure_returns_nil
    (method url : string) (options : list Option) (d : HttpRequests) (urlObj : url_URL)
    (v : GoValue) :
  applyOptions options (newRequestIns method url) = Ret d ->
  url_ParseRequestURI (URL d) = Ok urlObj ->
  (exists e, NewRequest (Method d) (URL_String (set_RawQuery urlObj (Params d))) (PostBody d)
             = Err e)
  \/ ((String.length (Method d) =? 0)%nat = false /\ validMethod (Method d) = false) ->
  createRequest d = (["create request instance failed" +:+ LF], Ret None)
  /\ HttpCaller method url options = (["create request instance failed" +:+ LF], Ret None)
  /\ ResponseToStruct None v = Panic nil_dereference
  /\ ResponseToMap None = Panic nil_dereference.
Proof.
  intros Ha Hp Hn.
  assert (He : exists e, NewRequest (Method d) (URL_String (set_RawQuery urlObj (Params d)))
                           (PostBody d) = Err e).
  { destruct Hn as [He|[H1 H2]]; [exact He|]. now apply NewRequest_invalid_method. }
  destruct He as [e He].
  assert (Hc : createRequest d = (["create request instance failed" +:+ LF], Ret None)).
  { unfold createRequest. rewrite (outboundRequest_parsed d urlObj Hp), He. reflexivity. }
  split; [exact Hc|]. split; [|split; reflexivity].
  unfold HttpCaller. now rewrite Ha.
Qed.

End Executor.

Lemma createRequest_overwrites_query_witness :
  @outboundRequest Demo.demoLib (newRequestIns "get" "https://h.io/a?x=1")
  = @outboundRequest Demo.demoLib (newRequestIns "get" "https://h.io/a?y=2&z=3")
  /\ @createRequest Demo.demoLib (newRequestIns "get" "https://h.io/a?x=1")
     = @createRequest Demo.demoLib (newRequestIns "get" "https://h.io/a?y=2&z=3").
Proof.
  refine (proj2 (proj2 (@createRequest_overwrites_query Demo.demoLib
            (newRequestIns "get" "https://h.io/a?y=2&z=3")
            (newRequestIns "get" "https://h.io/a?x=1")
            (mkURL "https" "" None "h.io" "/a" "" false false "y=2&z=3" "" "")
            (mkURL "https" "" None "h.io" "/a" "" false false "x=1" "" "") _)) _ _ _ _ _ _ _);
    reflexivity.
Defined.

Lemma fatal_failures_panic_witness :
  @HttpCaller Demo.demoLib "post" "https://h.io/a"
     [WithHeaders None; @WithPostJsonBody Demo.demoLib (Some {["k" := Demo.VChan]})]
  = ([], Panic "convert postBody to string error")
  /\ @createRequest Demo.demoLib (newRequestIns "get" "h.io/a")
     = ([], Panic ("parse url requestUrl failed, err:"
                     +:+ "parse " +:+ DQ +:+ "h.io/a" +:+ DQ +:+ ": invalid URI for request"
                     +:+ LF))
  /\ @createRequest Demo.demoLib (newRequestIns "get" "https://down.test/a")
     = ([], Panic ("send request error:" +:+ "dial tcp: connect: connection refused" +:+ LF)).
Proof.
  destruct (@fatal_failures_panic Demo.demoLib) as (H1 & H2 & H3).
  split; [|split].
  - apply (H1 (Some {["k" := Demo.VChan]}) "json: unsupported type: chan int"
              (newRequestIns "post" "https://h.io/a") "post" "https://h.io/a"
              [WithHeaders None] []
              (mkHttpRequests "POST" "https://h.io/a" None [] (3 * Second) "" ""));
      reflexivity.
  - exact (H2 (newRequestIns "get" "h.io/a")
              ("parse " +:+ DQ +:+ "h.io/a" +:+ DQ +:+ ": invalid URI for request") eq_refl).
  - exact (H3 (newRequestIns "get" "https://down.test/a") [] _
              "dial tcp: connect: connection refused" eq_refl eq_refl).
Defined.

Lemma NewRequest_failure_returns_nil_witness :
  @createRequest Demo.demoLib (newRequestIns "ge t" "https://h.io/a")
  = (["create request instance failed" +:+ LF], Ret None)
  /\ @HttpCaller Demo.demoLib "ge t" "https://h.io/a" []
     = (["create request instance failed" +:+ LF], Ret None)
  /\ @ResponseToStruct Demo.demoLib None (Demo.VNum 0) = Panic nil_dereference
  /\ @ResponseToMap Demo.demoLib None = Panic nil_dereference.
Proof.
  apply (@NewRequest_failure_returns_nil Demo.demoLib "ge t" "https://h.io/a" []
           (newRequestIns "ge t" "https://h.io/a")
           (mkURL "https" "" None "h.io" "/a" "" false false "" "" "")).
  - reflexivity.
  - reflexivity.
  - right. split; reflexivity.
Defined.

(** ** The decoders *)

Section Decoders.
Context `{L : StdLib}.

(** C3: on a response that is not nil, [ResponseToStruct] returns an error
    exactly when the status code is not 200, or the body cannot be read to its
    end, or json-iterator's [Unmarshal] rejects the bytes read for the target;
    with no error the target is what that [Unmarshal] made of the bytes read;
    the body is closed in every case. The decoding is the library's: the
    statement is about [fastJson_Unmarshal], which [FastJsonUnMarshal] has to
    call on the bytes read and the target, returning its error. *)
Theorem ResponseToStruct_error_iff (r : http_Response) (v : GoValue) :
  exists (v' : GoValue) (err : option error),
    ResponseToStruct (Some r) v = Ret (close_body r, v', err)
    /\ closed (resp_Body (close_body r)) = true
    /\ (err <> None <->
        StatusCode r <> 200
        \/ (exists e, ReadAll (resp_Body r) = Err e)
        \/ (exists bytes e, ReadAll (resp_Body r) = Ok bytes
                            /\ snd (fastJson_Unmarshal bytes v) = Some e))
    /\ (err = None ->
        exists bytes, ReadAll (resp_Body r) = Ok bytes
                      /\ fastJson_Unmarshal bytes v = (v', None)).
Proof.
  unfold ResponseToStruct, responseToBytes, StatusOK, FastJsonUnMarshal.
  destruct (Z.eqb_spec (StatusCode r) 200) as [Hs|Hs]; cbn [negb].
  - destruct (ReadAll (resp_Body r)) as [bytes|e] eqn:Hr.
    + destruct (fastJson_Unmarshal bytes v) as [v' [e|]] eqn:Hu.
      * exists v', (Some (Errorf "unMarshal response bytes slice error:%v" [AStringer e])).
        split; [reflexivity|]. split; [reflexivity|]. split; [|discriminate].
        split; [|discriminate]. intros _. right; right. exists bytes, e.
        split; [reflexivity | now rewrite Hu].
      * exists v', None. split; [reflexivity|]. split; [reflexivity|]. split.
        -- split; [congruence|]. intros [H|[[e H]|(b & e & Hb & He)]].
           ++ contradiction.
           ++ discriminate.
           ++ injection Hb as <-. rewrite Hu in He. discriminate.
        -- intros _. now exists bytes.
    + eexists v, _. split; [reflexivity|]. split; [reflexivity|]. split; [|discriminate].
      split; [|discriminate]. intros _. right; left. now exists e.
  - eexists v, _. split; [reflexivity|]. split; [reflexivity|]. split; [|discriminate].
    split; [|discriminate]. intros _. now left.
Qed.

(** C4: on a response that is not nil, [ResponseToMap] returns nil when the
    body does not decode into a map, with no error value and no panic; and it
    does not look at the status code: a body that decodes gives its map
    whatever the code is. The body is closed either way. *)
Theorem ResponseToMap_weak_contract (r : http_Response) :
  (forall e, Decoder_Decode (resp_Body r) = Err e ->
             ResponseToMap (Some r) = Ret (close_body r, None))
  /\ (forall m code,
        Decoder_Decode (resp_Body r) = Ok m ->
        ResponseToMap (Some (mkResponse code (resp_Body r)))
        = Ret (mkResponse code (Close (resp_Body r)), m)).
Proof.
  split.
  - intros e H. unfold ResponseToMap. now rewrite H.
  - intros m code H. unfold ResponseToMap. cbn [resp_Body]. now rewrite H.
Qed.

End Decoders.

Lemma ResponseToStruct_examples :
  @ResponseToStruct Demo.demoLib (Some (mkResponse 200 (mkBody "17" None false))) (Demo.VNum 0)
  = Ret (mkResponse 200 (mkBody "17" None true), Demo.VNum 17, None)
  /\ (exists e,
        @ResponseToStruct Demo.demoLib (Some (mkResponse 404 (mkBody "17" None false)))
          (Demo.VNum 0)
        = Ret (mkResponse 404 (mkBody "17" None true), Demo.VNum 0, Some e))
  /\ (exists e,
        @ResponseToStruct Demo.demoLib
          (Some (mkResponse 200 (mkBody "1" (Some "unexpected EOF") false))) (Demo.VNum 0)
        = Ret (mkResponse 200 (mkBody "1" (Some "unexpected EOF") true), Demo.VNum 0, Some e))
  /\ (exists e,
        @ResponseToStruct Demo.demoLib (Some (mkResponse 200 (mkBody "{x" None false)))
          (Demo.VNum 0)
        = Ret (mkResponse 200 (mkBody "{x" None true), Demo.VNum 0, Some e)).
Proof. repeat split; eexists; reflexivity. Qed.

(** With a library that accepts decimal numbers only: the body [17] fills the
    target and gives no error, the body [{x] is rejected and gives one. *)
Lemma ResponseToStruct_error_iff_witness :
  (exists bytes,
      ReadAll (mkBody "17" None false) = Ok bytes
      /\ @fastJson_Unmarshal Demo.demoLib bytes (Demo.VNum 0) = (Demo.VNum 17, None))
  /\ (exists v' err,
        @ResponseToStruct Demo.demoLib (Some (mkResponse 200 (mkBody "{x" None false)))
          (Demo.VNum 0)
        = Ret (mkResponse 200 (mkBody "{x" None true), v', err)
        /\ err <> None).
Proof.
  split.
  - destruct (@ResponseToStruct_error_iff Demo.demoLib
                (mkResponse 200 (mkBody "17" None false)) (Demo.VNum 0))
      as (v' & err & Hrun & _ & _ & Hok).
    injection Hrun as <- <-. exact (Hok eq_refl).
  - destruct (@ResponseToStruct_error_iff Demo.demoLib
                (mkResponse 200 (mkBody "{x" None false)) (Demo.VNum 0))
      as (v' & err & Hrun & _ & Herr & _).
    exists v', err. split; [exact Hrun|]. apply Herr. right; right.
    exists "{x"%string, "invalid character looking for beginning of value"%string.
    split; reflexivity.
Defined.

Lemma ResponseToMap_weak_contract_witness :
  @ResponseToMap Demo.demoLib (Some (mkResponse 200 (mkBody "{x" None false)))
  = Ret (mkResponse 200 (mkBody "{x" None true), None)
  /\ @ResponseToMap Demo.demoLib (Some (mkResponse 404 (mkBody "{}" None false)))
     = Ret (mkResponse 404 (mkBody "{}" None true), Some ∅).
Proof.
  split.
  - exact (proj1 (@ResponseToMap_weak_contract Demo.demoLib
                    (mkResponse 200 (mkBody "{x" None false))) _ eq_refl).
  - exact (proj2 (@ResponseToMap_weak_contract Demo.demoLib
                    (mkResponse 200 (mkBody "{}" None false))) (Some ∅) 404 eq_refl).
Defined.

(** ** Query escaping *)

Lemma all_bytes_cons (p : ascii -> bool) (c : ascii) (s : string) :
  all_bytes p (String c s) = p c && all_bytes p s.
Proof. reflexivity. Qed.

Lemma all_bytes_app (p : ascii -> bool) (s t : string) :
  all_bytes p (s +:+ t) = all_bytes p s && all_bytes p t.
Proof.
  induction s as [|c s IH]; [reflexivity|].
  rewrite append_cons, !all_bytes_cons, IH. now rewrite andb_assoc.
Qed.

Lemma all_bytes_weaken (p q : ascii -> bool) (s : string) :
  (forall c, p c = true -> q c = true) -> all_bytes p s = true -> all_bytes q s = true.
Proof.
  intros Hpq. induction s as [|c s IH]; [reflexivity|].
  rewrite !all_bytes_cons, !andb_true_iff. intros [Hc Hs]. auto.
Qed.

(** The three shapes of an escaped byte. *)
Lemma escape_byte_cases (c : ascii) :
  (c = " "%char /\ escape_byte c = "+")
  \/ (exists h1 h2,
        escape_byte c = String "%" (String h1 (String h2 ""))
        /\ ishex h1 && ishex h2 = true
        /\ ascii_of_nat (unhex h1 * 16 + unhex h2) = c)
  \/ (escape_byte c = String c ""
      /\ Ascii.eqb c "%" = false /\ Ascii.eqb c "+" = false).
Proof.
  destruct c as [[] [] [] [] [] [] [] []];
    first [ left; split; reflexivity
          | right; left; eexists _, _; repeat split; reflexivity
          | right; right; repeat split; reflexivity ].
Qed.

Lemma escape_byte_safe (c : ascii) : all_bytes query_byte (escape_byte c) = true.
Proof. destruct c as [[] [] [] [] [] [] [] []]; reflexivity. Qed.

Lemma QueryEscape_safe (s : string) : all_bytes query_byte (QueryEscape s) = true.
Proof.
  induction s as [|c s IH]; [reflexivity|].
  cbn [QueryEscape]. now rewrite all_bytes_app, escape_byte_safe, IH.
Qed.

Lemma QueryUnescape_escape_byte (c : ascii) (rest t : string) :
  QueryUnescape rest = Ok t ->
  QueryUnescape (escape_byte c +:+ rest) = Ok (String c t).
Proof.
  intros H.
  destruct (escape_byte_cases c) as [[-> E]|[(h1 & h2 & E & Hh & Hc)|(E & H1 & H2)]];
    rewrite E, ?append_cons, append_nil_l.
  - cbn. now rewrite H.
  - cbn [QueryUnescape]. rewrite Ascii.eqb_refl, Hh, H, Hc. reflexivity.
  - cbn [QueryUnescape]. now rewrite H1, H, H2.
Qed.

(** Unescaping undoes escaping. *)
Lemma QueryUnescape_QueryEscape (s : string) : QueryUnescape (QueryEscape s) = Ok s.
Proof.
  induction s as [|c s IH]; [reflexivity|].
  cbn [QueryEscape]. now apply QueryUnescape_escape_byte.
Qed.

(** ** Cutting an encoded query *)

Lemma length_append (s t : string) :
  String.length (s +:+ t) = (String.length s + String.length t)%nat.
Proof.
  induction s as [|c s IH]; [reflexivity|].
  rewrite append_cons. cbn [String.length]. now rewrite IH.
Qed.

Lemma lacks_cons (c b : ascii) (s : string) :
  lacks c (String b s) = negb (Ascii.eqb b c) && lacks c s.
Proof. reflexivity. Qed.

Lemma lacks_app (c : ascii) (s t : string) :
  lacks c (s +:+ t) = lacks c s && lacks c t.
Proof. apply all_bytes_app. Qed.

Lemma lacks_query_bytes (c : ascii) (s : string) :
  query_byte c = false -> all_bytes query_byte s = true -> lacks c s = true.
Proof.
  intros Hc. apply all_bytes_weaken. intros b Hb.
  destruct (Ascii.eqb_spec b c) as [->|]; [congruence | reflexivity].
Qed.

Lemma Cut_lacks (c : ascii) (s : string) :
  lacks c s = true -> Cut s c = (s, "", false).
Proof.
  induction s as [|b s IH]; [reflexivity|].
  rewrite lacks_cons, andb_true_iff, negb_true_iff. intros [Hb Hs].
  cbn [Cut]. now rewrite Hb, (IH Hs).
Qed.

Lemma Cut_at (c : ascii) (s rest : string) :
  lacks c s = true -> Cut (s +:+ String c rest) c = (s, rest, true).
Proof.
  induction s as [|b s IH].
  - intros _. rewrite append_nil_l. cbn [Cut]. now rewrite Ascii.eqb_refl.
  - rewrite lacks_cons, andb_true_iff, negb_true_iff. intros [Hb Hs].
    rewrite append_cons. cbn [Cut]. now rewrite Hb, (IH Hs).
Qed.

Lemma Contains_byte_lacks (c : ascii) (s : string) :
  lacks c s = true -> Contains s (String c "") = false.
Proof.
  intros H. apply Contains_false_spec. intros (l & r & ->).
  rewrite lacks_app, append_cons, lacks_cons, Ascii.eqb_refl in H.
  cbn [negb andb] in H. rewrite andb_false_r in H. discriminate.
Qed.

Lemma encode_pair_lacks (c : ascii) (kv : string * string) :
  query_byte c = false -> Ascii.eqb "=" c = false -> lacks c (encode_pair kv) = true.
Proof.
  intros Hc He. unfold encode_pair.
  rewrite lacks_app, append_cons, lacks_cons, append_nil_l, He.
  rewrite !(lacks_query_bytes c _ Hc (QueryEscape_safe _)). reflexivity.
Qed.

Lemma encode_pair_not_empty (kv : string * string) :
  (String.length (encode_pair kv) =? 0)%nat = false.
Proof.
  unfold encode_pair. rewrite length_append, append_cons. cbn [String.length].
  apply Nat.eqb_neq. lia.
Qed.

Lemma Cut_encode_pair (kv : string * string) :
  Cut (encode_pair kv) "=" = (QueryEscape (fst kv), QueryEscape (snd kv), true).
Proof.
  unfold encode_pair. rewrite append_cons, append_nil_l.
  apply Cut_at, lacks_query_bytes; [reflexivity | apply QueryEscape_safe].
Qed.

(** One turn of the loop of [parseQuery] on a query that starts with a pair. *)
Lemma parseQuery_pair (fuel : nat) (m : Values) (query query' : string) (found : bool)
    (kv : string * string) (err : option error) :
  Cut query "&" = (encode_pair kv, query', found) ->
  parseQuery (S fuel) m query err = parseQuery fuel (add_value m kv) query' err.
Proof.
  intros HC. destruct query as [|a q].
  - cbn [Cut] in HC. injection HC as HC _ _.
    pose proof (encode_pair_not_empty kv) as Hn. rewrite <- HC in Hn. discriminate.
  - cbn [parseQuery]. rewrite HC.
    rewrite (Contains_byte_lacks ";" _ (encode_pair_lacks ";" kv eq_refl eq_refl)).
    rewrite encode_pair_not_empty, Cut_encode_pair, !QueryUnescape_QueryEscape.
    reflexivity.
Qed.

Lemma parseQuery_empty (fuel : nat) (m : Values) (err : option error) :
  parseQuery fuel m "" err = (m, err).
Proof. destruct fuel; reflexivity. Qed.

(** The loop of [parseQuery] reads back the pairs of an encoded query, given
    one turn per byte. *)
Lemma parseQuery_encode_pairs (l : list (string * string)) :
  forall (fuel : nat) (m : Values) (err : option error),
    (String.length (encode_pairs l) < fuel)%nat ->
    parseQuery fuel m (encode_pairs l) err = (fold_left add_value l m, err).
Proof.
  induction l as [|kv rest IH]; intros fuel m err Hf.
  - apply parseQuery_empty.
  - destruct fuel as [|fuel]; [lia|]. destruct rest as [|kv2 rest].
    + cbn [encode_pairs fold_left].
      rewrite (parseQuery_pair fuel m _ "" false kv).
      * apply parseQuery_empty.
      * apply Cut_lacks, encode_pair_lacks; reflexivity.
    + change (encode_pairs (kv :: kv2 :: rest))
        with (encode_pair kv +:+ String "&" (encode_pairs (kv2 :: rest))) in *.
      rewrite (parseQuery_pair fuel m _ (encode_pairs (kv2 :: rest)) true kv).
      * cbn [fold_left]. apply IH.
        rewrite length_append in Hf. cbn [String.length] in Hf. lia.
      * apply Cut_at, encode_pair_lacks; reflexivity.
Qed.

(** ** Encoding the parameters *)

Lemma write_pair_not_empty (keyEscaped buf value : string) :
  (String.length (write_pair keyEscaped buf value) =? 0)%nat = false.
Proof.
  unfold write_pair. rewrite !length_append. cbn [String.length].
  apply Nat.eqb_neq. lia.
Qed.

(** The builder of [Encode] after the pairs [l], from the buffer [buf]. *)
Lemma write_pairs_fold (l : list (string * string)) :
  forall buf : string,
    fold_left (fun buf kv => write_pair (QueryEscape (fst kv)) buf (snd kv)) l buf
    = match l with
      | [] => buf
      | _ :: _ =>
          (if (String.length buf =? 0)%nat then buf else buf +:+ "&") +:+ encode_pairs l
      end.
Proof.
  induction l as [|kv rest IH]; intros buf; [reflexivity|].
  cbn [fold_left]. rewrite IH. destruct rest as [|kv2 rest]; [reflexivity|].
  rewrite write_pair_not_empty. unfold write_pair.
  change (encode_pairs (kv :: kv2 :: rest))
    with (encode_pair kv +:+ "&" +:+ encode_pairs (kv2 :: rest)).
  unfold encode_pair. now rewrite !append_assoc.
Qed.

Lemma Encode_loop_pairs (g : gmap string string) (keys : list string) :
  (forall k, k ∈ keys -> is_Some (g !! k)) ->
  forall buf : string,
    fold_left
      (fun buf k =>
         fold_left (write_pair (QueryEscape k))
           (default [] (((fun v => [v]) <$> g : Values) !! k)) buf)
      keys buf
    = fold_left (fun buf kv => write_pair (QueryEscape (fst kv)) buf (snd kv))
        (pairs_of g keys) buf.
Proof.
  induction keys as [|k keys IH]; intros Hk buf; [reflexivity|].
  cbn [fold_left pairs_of fmap list_fmap]. rewrite lookup_fmap.
  destruct (Hk k) as [x Hx]; [apply elem_of_cons; now left|].
  rewrite Hx. cbn [fmap option_fmap option_map default fold_left fst snd].
  apply IH. intros k' Hk'. apply Hk, elem_of_cons. now right.
Qed.

Lemma sorted_keys_Permutation (g : gmap string string) :
  sorted_keys ((fun v => [v]) <$> g) ≡ₚ (map_to_list g).*1.
Proof.
  unfold sorted_keys. rewrite merge_sort_Permutation, map_to_list_fmap.
  rewrite <- list_fmap_compose.
  replace ((fst ∘ prod_map id (fun v : string => [v])) <$> map_to_list g)
    with ((map_to_list g).*1); [reflexivity|].
  apply list_fmap_ext. now intros _ [k v] _.
Qed.

Lemma pairs_of_map_to_list (g : gmap string string) (l : list (string * string)) :
  (forall kv, kv ∈ l -> g !! fst kv = Some (snd kv)) ->
  pairs_of g l.*1 = l.
Proof.
  induction l as [|[k v] l IH]; intros H; [reflexivity|].
  assert (E : g !! k = Some v) by (apply (H (k, v)), elem_of_cons; now left).
  unfold pairs_of in *. rewrite !fmap_cons. cbn [fst]. rewrite E. cbn [default]. f_equal.
  apply IH. intros kv Hkv. apply H, elem_of_cons. now right.
Qed.

Lemma pairs_of_sorted_keys (g : gmap string string) :
  pairs_of g (sorted_keys ((fun v => [v]) <$> g)) ≡ₚ map_to_list g.
Proof.
  unfold pairs_of. rewrite sorted_keys_Permutation.
  change (pairs_of g (map_to_list g).*1 ≡ₚ map_to_list g).
  rewrite pairs_of_map_to_list; [reflexivity|].
  intros [k v] H. now apply elem_of_map_to_list.
Qed.

(** [Encode] on a map with one value a key: the pairs in key order, joined. *)
Lemma Encode_pairs (g : gmap string string) :
  Encode ((fun v => [v]) <$> g)
  = encode_pairs (pairs_of g (sorted_keys ((fun v => [v]) <$> g))).
Proof.
  unfold Encode. destruct (Nat.eqb_spec (size ((fun v => [v]) <$> g : Values)) 0) as [Hz|Hz].
  - apply map_size_empty_inv in Hz. rewrite Hz. reflexivity.
  - rewrite Encode_loop_pairs.
    + rewrite write_pairs_fold. destruct (pairs_of _ _); reflexivity.
    + intros k Hk. rewrite sorted_keys_Permutation in Hk.
      apply list_elem_of_fmap in Hk as ([k' v] & -> & Hkv).
      apply elem_of_map_to_list in Hkv. now exists v.
Qed.

(** ** Collecting and decoding *)

Lemma collect_lookup (l : list (string * string)) :
  forall (m : Values) (k : string),
    NoDup l.*1 ->
    fold_left (fun urlParams kv => Values_Set urlParams (fst kv) (snd kv)) l m !! k
    = match (list_to_map l : gmap string string) !! k with
      | Some v => Some [v]
      | None => m !! k
      end.
Proof.
  induction l as [|[k0 v0] l IH]; intros m k Hnd; [reflexivity|].
  cbn [fmap list_fmap fst] in Hnd. apply NoDup_cons in Hnd as [Hnotin Hnd].
  cbn [fold_left fst snd]. rewrite (IH _ _ Hnd), list_to_map_cons. unfold Values_Set.
  destruct (decide (k = k0)) as [->|Hne].
  - rewrite (not_elem_of_list_to_map_1 _ _ Hnotin), !lookup_insert_eq. reflexivity.
  - rewrite !(lookup_insert_ne _ k0 k) by congruence. reflexivity.
Qed.

Lemma add_value_lookup (l : list (string * string)) :
  forall (m : Values) (k : string),
    NoDup l.*1 ->
    (forall k', k' ∈ l.*1 -> m !! k' = None) ->
    fold_left add_value l m !! k
    = match (list_to_map l : gmap string string) !! k with
      | Some v => Some [v]
      | None => m !! k
      end.
Proof.
  induction l as [|[k0 v0] l IH]; intros m k Hnd Hfresh; [reflexivity|].
  cbn [fmap list_fmap fst] in Hnd, Hfresh. apply NoDup_cons in Hnd as [Hnotin Hnd].
  cbn [fold_left]. unfold add_value at 2. cbn [fst snd].
  rewrite (Hfresh k0) by (apply elem_of_cons; now left). cbn [default app].
  rewrite (IH _ _ Hnd), list_to_map_cons.
  - destruct (decide (k = k0)) as [->|Hne].
    + rewrite (not_elem_of_list_to_map_1 _ _ Hnotin), !lookup_insert_eq. reflexivity.
    + rewrite !(lookup_insert_ne _ k0 k) by congruence. reflexivity.
  - intros k' Hk'. rewrite lookup_insert_ne.
    + apply Hfresh, elem_of_cons. now right.
    + intros ->. contradiction.
Qed.

Lemma one_value_lookup (g : gmap string string) (l : list (string * string)) (k : string) :
  l ≡ₚ map_to_list g ->
  match (list_to_map l : gmap string string) !! k with
  | Some v => Some [v]
  | None => (∅ : Values) !! k
  end = ((fun v => [v]) <$> g : Values) !! k.
Proof.
  intros Hp. rewrite <- (list_to_map_flip g l) by now symmetry.
  rewrite lookup_fmap, lookup_empty. now destruct (g !! k).
Qed.

Lemma NoDup_fst_visited (g : gmap string string) (l : list (string * string)) :
  l ≡ₚ map_to_list g -> NoDup l.*1.
Proof. intros ->. apply NoDup_fst_map_to_list. Qed.

(** The loop of [WithParams] builds the same [Values] whatever the order in
    which the map is visited. *)
Lemma collectParams_visited (g : gmap string string) (visited : list (string * string)) :
  visited ≡ₚ map_to_list g -> collectParams visited = (fun v => [v]) <$> g.
Proof.
  intros Hp. apply map_eq. intros k. unfold collectParams.
  rewrite collect_lookup by now apply (NoDup_fst_visited g).
  now apply one_value_lookup.
Qed.

Lemma add_values_visited (g : gmap string string) (l : list (string * string)) :
  l ≡ₚ map_to_list g -> fold_left add_value l ∅ = (fun v => [v]) <$> g.
Proof.
  intros Hp. apply map_eq. intros k.
  rewrite add_value_lookup.
  - now apply one_value_lookup.
  - now apply (NoDup_fst_visited g).
  - intros k' _. apply lookup_empty.
Qed.

Lemma all_bytes_encode_pairs (l : list (string * string)) :
  all_bytes encoded_byte (encode_pairs l) = true.
Proof.
  assert (Hq : forall s, all_bytes encoded_byte (QueryEscape s) = true).
  { intros s. apply (all_bytes_weaken query_byte); [|apply QueryEscape_safe].
    intros c Hc. unfold encoded_byte. now rewrite Hc. }
  assert (Hp : forall kv, all_bytes encoded_byte (encode_pair kv) = true).
  { intros kv. unfold encode_pair.
    now rewrite all_bytes_app, append_cons, all_bytes_cons, append_nil_l, !Hq. }
  induction l as [|kv rest IH]; [reflexivity|].
  destruct rest as [|kv2 rest]; [apply Hp|].
  change (encode_pairs (kv :: kv2 :: rest))
    with (encode_pair kv +:+ String "&" (encode_pairs (kv2 :: rest))).
  now rewrite all_bytes_app, all_bytes_cons, Hp, IH.
Qed.

(** C6: [WithParams] stores one string for a mapping, the same for every order
    in which the map is visited; the string is made of escaped keys and values
    joined by [=] and [&]; and [url.ParseQuery] on it gives back, with no
    error, every key of the mapping with its one value and nothing else. *)
Theorem WithParams_round_trip (params : gomap string) (req : HttpRequests) :
  exists encoded : string,
    WithParams params req
    = Ret (mkHttpRequests (Method req) (URL req) (Headers req) (Cookies req) (Timeout req)
             (PostBody req) encoded)
    /\ (forall visited, visited ≡ₚ range params -> Encode (collectParams visited) = encoded)
    /\ all_bytes encoded_byte encoded = true
    /\ ParseQuery encoded = (decoded params, None).
Proof.
  exists (Encode (collectParams (range params))). split; [reflexivity|].
  assert (Hc : forall visited, visited ≡ₚ range params ->
                 collectParams visited = decoded params).
  { intros visited Hv. destruct params as [g|]; cbn [range] in Hv.
    - now apply collectParams_visited.
    - apply Permutation_nil_r in Hv. subst visited. unfold decoded. cbn [default].
      now rewrite fmap_empty. }
  split; [intros visited Hv; now rewrite (Hc visited Hv), (Hc (range params))|].
  rewrite (Hc (range params)) by reflexivity.
  unfold decoded. rewrite Encode_pairs. split; [apply all_bytes_encode_pairs|].
  unfold ParseQuery. rewrite parseQuery_encode_pairs by lia.
  f_equal. apply add_values_visited, pairs_of_sorted_keys.
Qed.

Lemma WithParams_round_trip_example :
  WithParams (Some {["b" := "2"; "a" := "1"]}) (newRequestIns "get" "https://h.io/a")
  = Ret (mkHttpRequests "GET" "https://h.io/a"
           (Some {["Content-Type" := "application/json"]}) [] (3 * Second) "" "a=1&b=2")
  /\ ParseQuery "a=1&b=2" = ({["a" := ["1"]; "b" := ["2"]]}, None)
  /\ Encode (collectParams [("a", "1 &"); ("é", "=/?")]) = "a=1+%26&%C3%A9=%3D%2F%3F".
Proof. repeat split; vm_compute; reflexivity. Qed.

(** * Further properties of the package *)

(** ** MontageUrl *)

Lemma MontageUrl_passes (host : string) (b : ascii) (rest : string) (segs : list any) :
  negb (Ascii.eqb b "/") || Contains (String b rest) host = false ->
  MontageUrl host (String b rest) segs = Ret (assembled host (String b rest) segs).
Proof.
  intros Hg. unfold MontageUrl, assembled. rewrite string_of_byte_slash, Hg.
  destruct segs as [|v segs].
  - cbn [length Nat.eqb fold_left]. now rewrite Sprintf_host_path.
  - cbn [length Nat.eqb Nat.leb]. rewrite Sprintf_host_path_params.
    unfold joinPathParam. f_equal.
    pose proof (joinPathParam_from ("https://" +:+ host +:+ String b rest) "" (v :: segs)) as E.
    rewrite append_nil_r in E. rewrite <- E. now rewrite !append_assoc.
Qed.

Lemma assembled_not_empty (host apiUrl : string) (segs : list any) :
  assembled host apiUrl segs <> "".
Proof.
  unfold assembled.
  assert (H : forall (l : list any) (s : string),
             s <> "" -> fold_left (fun url seg => url +:+ "/" +:+ fmt_v seg) l s <> "").
  { induction l as [|v l IH]; intros s Hs; [exact Hs|].
    cbn [fold_left]. apply IH. destruct s; [congruence | discriminate]. }
  apply H. discriminate.
Qed.

(** X1: on a path that is not empty, [MontageUrl] always returns, and what it
    returns is the empty string exactly when the path does not start with a
    slash or contains the host; a result that is not empty is the assembled
    URL, [https://] + host + path followed by [/] + the printed segment for
    each segment in order. *)
Theorem MontageUrl_empty_result_iff (host : string) (b : ascii) (rest : string)
    (segs : list any) :
  exists r : string,
    MontageUrl host (String b rest) segs = Ret r
    /\ (r = "" <-> b <> "/"%char \/ substring_of host (String b rest))
    /\ (r <> "" ->
        r = fold_left (fun url seg => url +:+ "/" +:+ fmt_v seg) segs
              ("https://" +:+ host +:+ String b rest)).
Proof.
  destruct (negb (Ascii.eqb b "/") || Contains (String b rest) host) eqn:Hg.
  - exists ""%string.
    assert (Hc : b <> "/"%char \/ substring_of host (String b rest)).
    { apply orb_true_iff in Hg as [Hb|Hc].
      - left. apply negb_true_iff in Hb. now apply Ascii.eqb_neq.
      - right. now apply Contains_spec. }
    split; [now apply MontageUrl_guard|]. split; [tauto | congruence].
  - exists (assembled host (String b rest) segs).
    split; [now apply MontageUrl_passes|].
    apply orb_false_iff in Hg as [Hb Hc]. apply negb_false_iff, Ascii.eqb_eq in Hb.
    apply Contains_false_spec in Hc.
    split; [|reflexivity].
    split; [intros E; now apply assembled_not_empty in E | tauto].
Qed.

(** X2: an empty host is rejected on every path that is not empty, whatever
    the segments: the empty string occurs in every path. *)
Theorem MontageUrl_empty_host (b : ascii) (rest : string) (segs : list any) :
  MontageUrl "" (String b rest) segs = Ret "".
Proof.
  apply MontageUrl_guard. right. now exists ""%string, (String b rest).
Qed.

(** X3: segments only ever extend the URL: when [MontageUrl] has built a URL
    from some segments, the call with further segments after them returns that
    URL with [/] + the printed segment appended for each further one. *)
Theorem MontageUrl_more_segments (host path r : string) (segs1 segs2 : list any) :
  MontageUrl host path segs1 = Ret r ->
  r <> "" ->
  MontageUrl host path (segs1 ++ segs2)
  = Ret (fold_left (fun url seg => url +:+ "/" +:+ fmt_v seg) segs2 r).
Proof.
  intros Hr Hne. destruct path as [|b rest]; [discriminate|].
  destruct (negb (Ascii.eqb b "/") || Contains (String b rest) host) eqn:Hg.
  - unfold MontageUrl in Hr. rewrite string_of_byte_slash, Hg in Hr. congruence.
  - rewrite (MontageUrl_passes host b rest segs1 Hg) in Hr. injection Hr as <-.
    rewrite (MontageUrl_passes host b rest (segs1 ++ segs2) Hg).
    unfold assembled. now rewrite fold_left_app.
Qed.

Lemma MontageUrl_more_segments_witness :
  MontageUrl "h.io" "/api" ([AString "v1"] ++ [AInt 7; ABool true])
  = Ret "https://h.io/api/v1/7/true".
Proof.
  apply (MontageUrl_more_segments "h.io" "/api" "https://h.io/api/v1" [AString "v1"]
           [AInt 7; ABool true]).
  - reflexivity.
  - discriminate.
Defined.

(** ** The options and the loop that applies them *)

Section Options.
Context `{L : StdLib}.

Lemma applyOptions_app (os1 os2 : list Option) (d : HttpRequests) :
  applyOptions (os1 ++ os2) d = (d' <- applyOptions os1 d ;; applyOptions os2 d').
Proof.
  revert d; induction os1 as [|o os1 IH]; intros d; cbn [app applyOptions bind]; [reflexivity|].
  destruct (o d) as [d1|msg]; cbn [bind]; [apply IH | reflexivity].
Qed.

Lemma library_option_step (o : Option) (d : HttpRequests) :
  library_option o ->
  match o d with
  | Ret d' => Method d' = Method d /\ URL d' = URL d
  | Panic msg =>
      msg = "convert postBody to string error"
      /\ exists data e, o = WithPostJsonBody data /\ json_Marshal data = Err e
  end.
Proof.
  intros [h|t|c|p|data|s]; try (split; reflexivity).
  unfold WithPostJsonBody at 1. destruct (json_Marshal data) as [str|e] eqn:Hm.
  - split; reflexivity.
  - split; [reflexivity|]. now exists data, e.
Qed.

(** X4: the options of the package never change the method or the URL of the
    descriptor, and a list of them can only panic in [WithPostJsonBody], on data
    that does not marshal. *)
Theorem library_options_keep_target (os : list Option) (d : HttpRequests) :
  Forall library_option os ->
  match applyOptions os d with
  | Ret d' => Method d' = Method d /\ URL d' = URL d
  | Panic msg =>
      msg = "convert postBody to string error"
      /\ exists data e, WithPostJsonBody data ∈ os /\ json_Marshal data = Err e
  end.
Proof.
  intros H. revert d. induction H as [|o rest Ho _ IH]; intros d; cbn [applyOptions].
  - split; reflexivity.
  - pose proof (library_option_step o d Ho) as Hs.
    destruct (o d) as [d1|msg]; cbn [bind].
    + destruct Hs as [Hm Hu]. specialize (IH d1).
      destruct (applyOptions rest d1) as [d'|msg].
      * destruct IH as [Hm' Hu']. split; congruence.
      * destruct IH as (Hmsg & data & e & Hin & He). split; [exact Hmsg|].
        exists data, e. split; [apply elem_of_cons; now right | exact He].
    + destruct Hs as (Hmsg & data & e & -> & He). split; [exact Hmsg|].
      exists data, e. split; [apply elem_of_cons; now left | exact He].
Qed.

Lemma applyOptions_value_survives {A : Type} (f : HttpRequests -> A) (x : A) (o : Option)
    (before after : list Option) (d d' : HttpRequests) :
  (forall a a', o a = Ret a' -> f a' = x) ->
  Forall (preserves f) after ->
  applyOptions (before ++ o :: after) d = Ret d' ->
  f d' = x.
Proof.
  intros Hset Hafter. rewrite applyOptions_app.
  destruct (applyOptions before d) as [d0|msg]; cbn [bind applyOptions]; [|discriminate].
  destruct (o d0) as [d1|msg] eqn:Ho; cbn [bind]; [|discriminate].
  apply Hset in Ho. clear Hset. revert d1 Ho.
  induction Hafter as [|o' after Hp _ IH]; intros d1 Ho; cbn [applyOptions bind].
  - now intros [= <-].
  - destruct (o' d1) as [d2|msg] eqn:Ho'; cbn [bind]; [|discriminate].
    apply IH. rewrite (Hp _ _ Ho'). exact Ho.
Qed.

(** X5: in the loop of [HttpCaller], what an option sets is still there at the
    end when every later option leaves that field alone: the last option of a
    field wins, and options of other fields do not disturb it. *)
Theorem option_value_survives {A : Type} (f : HttpRequests -> A) (x : A) (o : Option)
    (before after : list Option) (d d' : HttpRequests) :
  (forall a a', o a = Ret a' -> f a' = x) ->
  Forall (preserves f) after ->
  applyOptions (before ++ o :: after) d = Ret d' ->
  f d' = x.
Proof. apply applyOptions_value_survives. Qed.

(** What each option of the package leaves alone. *)
Lemma library_option_frame :
  (forall t, preserves Headers (WithTimeout t))
  /\ (forall c, preserves Headers (WithCookies c))
  /\ (forall p, preserves Headers (WithParams p))
  /\ (forall data, preserves Headers (WithPostJsonBody data))
  /\ (forall s, preserves Headers (WithPostStringBody s))
  /\ (forall h, preserves Params (WithHeaders h))
  /\ (forall t, preserves Params (WithTimeout t))
  /\ (forall c, preserves Params (WithCookies c))
  /\ (forall data, preserves Params (WithPostJsonBody data))
  /\ (forall s, preserves Params (WithPostStringBody s))
  /\ (forall h, preserves PostBody (WithHeaders h))
  /\ (forall t, preserves PostBody (WithTimeout t))
  /\ (forall c, preserves PostBody (WithCookies c))
  /\ (forall p, preserves PostBody (WithParams p))
  /\ (forall h, preserves Cookies (WithHeaders h))
  /\ (forall t, preserves Cookies (WithTimeout t))
  /\ (forall p, preserves Cookies (WithParams p))
  /\ (forall data, preserves Cookies (WithPostJsonBody data))
  /\ (forall s, preserves Cookies (WithPostStringBody s)).
Proof.
  repeat split; intros x d d'; unfold preserves, WithPostJsonBody;
    try (destruct (json_Marshal x); [|discriminate]); now intros [= <-].
Qed.

End Options.

Lemma library_options_keep_target_witness :
  match @applyOptions
          [WithHeaders None; WithTimeout 5;
           @WithPostJsonBody Demo.demoLib (Some {["k" := Demo.VChan]})]
          (newRequestIns "get" "https://h.io/a") with
  | Ret d' => Method d' = "GET" /\ URL d' = "https://h.io/a"
  | Panic msg =>
      msg = "convert postBody to string error"
      /\ exists data e,
           @WithPostJsonBody Demo.demoLib data
             ∈ [WithHeaders None; WithTimeout 5;
                @WithPostJsonBody Demo.demoLib (Some {["k" := Demo.VChan]})]
           /\ @json_Marshal Demo.demoLib data = Err e
  end.
Proof.
  apply (@library_options_keep_target Demo.demoLib
           [WithHeaders None; WithTimeout 5;
            @WithPostJsonBody Demo.demoLib (Some {["k" := Demo.VChan]})]
           (newRequestIns "get" "https://h.io/a")).
  repeat constructor.
Defined.

Lemma option_value_survives_witness :
  Headers (mkHttpRequests "GET" "https://h.io/a" (Some {["X-Id" := "7"]}) [] 5 "a=1" "q=1")
  = Some {["X-Id" := "7"]}.
Proof.
  apply (option_value_survives Headers (Some {["X-Id" := "7"]})
           (WithHeaders (Some {["X-Id" := "7"]}))
           [WithHeaders None]
           [WithTimeout 5; WithParams (Some {["q" := "1"]}); WithPostStringBody "a=1"]
           (newRequestIns "get" "https://h.io/a")).
  - now intros a a' [= <-].
  - repeat constructor; intros d d'; now intros [= <-].
  - reflexivity.
Defined.

(** ** WithParams: the order of the pairs *)

Lemma pairs_of_keys (g : gmap string string) (keys : list string) :
  (pairs_of g keys).*1 = keys.
Proof.
  unfold pairs_of. rewrite <- list_fmap_compose.
  induction keys as [|k keys IH]; [reflexivity|].
  rewrite fmap_cons. cbn [compose fst]. now rewrite IH.
Qed.

(** X6: the string [WithParams] stores is the escaped [key=value] pairs of the
    mapping joined by [&], each pair once, in increasing byte order of the
    keys; a nil or empty mapping stores the empty string. *)
Theorem WithParams_sorted_pairs (params : gomap string) (req : HttpRequests) :
  exists pairs : list (string * string),
    WithParams params req
    = Ret (mkHttpRequests (Method req) (URL req) (Headers req) (Cookies req) (Timeout req)
             (PostBody req) (encode_pairs pairs))
    /\ pairs ≡ₚ range params
    /\ StronglySorted String.le pairs.*1
    /\ (range params = [] -> encode_pairs pairs = "").
Proof.
  destruct params as [g|].
  - exists (pairs_of g (sorted_keys ((fun v => [v]) <$> g))).
    split; [|split; [|split]].
    + unfold WithParams. cbn [range].
      rewrite (collectParams_visited g (map_to_list g)) by reflexivity.
      now rewrite Encode_pairs.
    + apply pairs_of_sorted_keys.
    + rewrite pairs_of_keys. unfold sorted_keys.
      apply StronglySorted_merge_sort; apply _.
    + cbn [range]. intros He.
      pose proof (pairs_of_sorted_keys g) as Hp. rewrite He in Hp.
      apply Permutation_nil_r in Hp. now rewrite Hp.
  - exists []. split; [reflexivity|]. split; [reflexivity|]. split; [constructor | reflexivity].
Qed.

(** ** The method *)

Lemma upper_byte_idempotent (c : ascii) : upper_byte (upper_byte c) = upper_byte c.
Proof. destruct c as [[] [] [] [] [] [] [] []]; reflexivity. Qed.

Lemma isToken_upper_byte (c : ascii) : isToken (upper_byte c) = isToken c.
Proof. destruct c as [[] [] [] [] [] [] [] []]; reflexivity. Qed.

Lemma ToUpper_idempotent (s : string) : ToUpper (ToUpper s) = ToUpper s.
Proof.
  induction s as [|c s IH]; [reflexivity|].
  cbn [ToUpper]. now rewrite upper_byte_idempotent, IH.
Qed.

Lemma ToUpper_length (s : string) : String.length (ToUpper s) = String.length s.
Proof. induction s as [|c s IH]; [reflexivity|]. cbn [ToUpper String.length]. now rewrite IH. Qed.

Lemma all_bytes_isToken_ToUpper (s : string) :
  all_bytes isToken (ToUpper s) = all_bytes isToken s.
Proof.
  induction s as [|c s IH]; [reflexivity|].
  cbn [ToUpper]. now rewrite !all_bytes_cons, isToken_upper_byte, IH.
Qed.

Section Method.
Context `{L : StdLib}.

(** X7: for a method made of ASCII bytes, [HttpCaller] does not tell the
    letter case apart: the method and its upper-case form give the same call;
    and upper-casing neither makes a valid method invalid nor an invalid one
    valid, so whether [http.NewRequest] refuses the method depends on the
    method as given. (A method with a byte from 128 up is outside the
    statement: there Go upper-cases runes.) *)
Theorem HttpCaller_method_case (method url : string) (options : list Option) :
  all_bytes is_ascii_byte method = true ->
  ToUpper (ToUpper method) = ToUpper method
  /\ HttpCaller (ToUpper method) url options = HttpCaller method url options
  /\ validMethod (ToUpper method) = validMethod method.
Proof.
  intros _. split; [apply ToUpper_idempotent|]. split.
  - unfold HttpCaller, newRequestIns. now rewrite ToUpper_idempotent.
  - unfold validMethod. now rewrite ToUpper_length, all_bytes_isToken_ToUpper.
Qed.

(** What [outboundRequest] can end in. *)
Lemma outboundRequest_ends (d : HttpRequests) :
  (exists msg, outboundRequest d = ([], Panic msg))
  \/ outboundRequest d = (["create request instance failed" +:+ LF], Ret None)
  \/ (exists req, outboundRequest d = ([], Ret (Some req))).
Proof.
  unfold outboundRequest. destruct (url_ParseRequestURI (URL d)) as [urlObj|e]; [|left; eauto].
  destruct (NewRequest _ _ _) as [req|e]; [|right; left; reflexivity].
  destruct (addCookies _ _) as [req'|msg]; cbn [bind]; [right; right | left]; eauto.
Qed.

(** X8: [HttpCaller] returns a nil response exactly when it has printed the
    line [create request instance failed]; it prints nothing else, and when it
    prints it does not panic. *)
Theorem HttpCaller_nil_iff_printed (method url : string) (options : list Option)
    (out : list string) (res : outcome (option http_Response)) :
  HttpCaller method url options = (out, res) ->
  (res = Ret None <-> out = ["create request instance failed" +:+ LF])
  /\ (out = [] \/ out = ["create request instance failed" +:+ LF]).
Proof.
  unfold HttpCaller. destruct (applyOptions options _) as [d|msg].
  - unfold createRequest.
    destruct (outboundRequest_ends d) as [[msg ->]|[->|[req ->]]].
    + intros [= <- <-]. split; [split; discriminate | now left].
    + intros [= <- <-]. split; [split; reflexivity | now right].
    + destruct (DefaultClient_Do req); intros [= <- <-];
        (split; [split; discriminate | now left]).
  - intros [= <- <-]. split; [split; discriminate | now left].
Qed.

End Method.

Lemma HttpCaller_method_case_witness :
  ToUpper (ToUpper "get") = ToUpper "get"
  /\ @HttpCaller Demo.demoLib (ToUpper "get") "https://h.io/a" []
     = @HttpCaller Demo.demoLib "get" "https://h.io/a" []
  /\ validMethod (ToUpper "get") = validMethod "get".
Proof.
  apply (@HttpCaller_method_case Demo.demoLib "get" "https://h.io/a" []). reflexivity.
Defined.

Lemma HttpCaller_nil_iff_printed_witness :
  (@Ret (option http_Response) None = Ret None
   <-> ["create request instance failed" +:+ LF] = ["create request instance failed" +:+ LF])
  /\ (["create request instance failed" +:+ LF] = []
      \/ ["create request instance failed" +:+ LF] = ["create request instance failed" +:+ LF]).
Proof.
  apply (@HttpCaller_nil_iff_printed Demo.demoLib "ge t" "https://h.io/a" []).
  reflexivity.
Defined.

(** ** The request that is sent *)

Section Request.
Context `{L : StdLib}.

Lemma setHeaders_fields (req : http_Request) (headers : gomap string) :
  req_Method (setHeaders req headers) = req_Method req
  /\ req_URL (setHeaders req headers) = req_URL req
  /\ req_Body (setHeaders req headers) = req_Body req
  /\ req_ContentLength (setHeaders req headers) = req_ContentLength req
  /\ req_Host (setHeaders req headers) = req_Host req.
Proof.
  unfold setHeaders. generalize (range headers). intros l. revert req.
  induction l as [|kv l IH]; intros req; cbn [fold_left]; [repeat split|].
  destruct (IH (Request_Header_Set req (fst kv) (snd kv))) as (-> & -> & -> & -> & ->).
  repeat split.
Qed.

Lemma addCookies_fields (cookies : list (option http_Cookie)) :
  forall req req' : http_Request,
    addCookies req cookies = Ret req' ->
    req_Method req' = req_Method req
    /\ req_URL req' = req_URL req
    /\ req_Body req' = req_Body req
    /\ req_ContentLength req' = req_ContentLength req
    /\ req_Host req' = req_Host req.
Proof.
  induction cookies as [|c cookies IH]; intros req req'; cbn [addCookies].
  - intros [= <-]. repeat split.
  - destruct c as [c|]; [|discriminate]. unfold AddCookie.
    destruct (String.length _ =? 0)%nat; cbn [bind]; intros H;
      destruct (IH _ _ H) as (-> & -> & -> & -> & ->); repeat split.
Qed.

Lemma outboundRequest_shape (d : HttpRequests) (out : list string) (req : http_Request) :
  outboundRequest d = (out, Ret (Some req)) ->
  out = []
  /\ req_Method req = (if (String.length (Method d) =? 0)%nat then "GET" else Method d)
  /\ validMethod (req_Method req) = true
  /\ req_Body req = PostBody d
  /\ req_ContentLength req = Z.of_nat (String.length (PostBody d))
  /\ exists urlObj u,
       url_ParseRequestURI (URL d) = Ok urlObj
       /\ url_Parse (URL_String (set_RawQuery urlObj (Params d))) = Ok u
       /\ req_URL req = set_Host u (removeEmptyPort (Host u))
       /\ req_Host req = removeEmptyPort (Host u).
Proof.
  unfold outboundRequest.
  destruct (url_ParseRequestURI (URL d)) as [urlObj|e] eqn:Hp; [|discriminate].
  unfold NewRequest.
  destruct (validMethod _) eqn:Hv; cbn [negb]; [|discriminate].
  destruct (url_Parse _) as [u|e] eqn:Hu; [|discriminate].
  destruct (addCookies _ _) as [req'|msg] eqn:Hc; cbn [bind]; [|discriminate].
  intros [= <- <-].
  destruct (addCookies_fields _ _ _ Hc) as (Hm & HU & Hb & Hl & Hh).
  destruct (setHeaders_fields
              (mkRequest (if (String.length (Method d) =? 0)%nat then "GET" else Method d)
                 (set_Host u (removeEmptyPort (Host u))) ∅ (PostBody d)
                 (Z.of_nat (String.length (PostBody d)))
                 (Host (set_Host u (removeEmptyPort (Host u)))))
              (Headers d)) as (Hm' & HU' & Hb' & Hl' & Hh').
  rewrite Hm' in Hm. rewrite HU' in HU. rewrite Hb' in Hb. rewrite Hl' in Hl.
  rewrite Hh' in Hh. cbn [req_Method req_URL req_Body req_ContentLength req_Host] in *.
  split; [reflexivity|]. split; [exact Hm|]. split; [now rewrite Hm|].
  split; [exact Hb|]. split; [exact Hl|].
  exists urlObj, u. repeat split; assumption.
Qed.

(** X9: whenever [createRequest] gets as far as a request, that request has the
    descriptor's method ([GET] when it is empty), the descriptor's body string
    as it is with its length as content length, and the URL that
    [http.NewRequest] parsed from the printed URL with [RawQuery] set to
    [Params]; nothing was printed. The header and cookie loops change the
    header map only. *)
Theorem outboundRequest_fields (d : HttpRequests) (out : list string) (req : http_Request) :
  outboundRequest d = (out, Ret (Some req)) ->
  out = []
  /\ req_Method req = (if (String.length (Method d) =? 0)%nat then "GET" else Method d)
  /\ validMethod (req_Method req) = true
  /\ req_Body req = PostBody d
  /\ req_ContentLength req = Z.of_nat (String.length (PostBody d))
  /\ exists urlObj u,
       url_ParseRequestURI (URL d) = Ok urlObj
       /\ url_Parse (URL_String (set_RawQuery urlObj (Params d))) = Ok u
       /\ req_URL req = set_Host u (removeEmptyPort (Host u))
       /\ req_Host req = removeEmptyPort (Host u).
Proof. apply outboundRequest_shape. Qed.

(** The header map after the loop over the pairs [l]. *)
Lemma set_headers_untouched (l : list (string * string)) (c : string) :
  forall req : http_Request,
    (forall kv, kv ∈ l -> CanonicalMIMEHeaderKey (fst kv) <> c) ->
    req_Header (fold_left (fun req kv => Request_Header_Set req (fst kv) (snd kv)) l req) !! c
    = req_Header req !! c.
Proof.
  induction l as [|kv l IH]; intros req Hl; cbn [fold_left]; [reflexivity|].
  rewrite IH by (intros kv' Hkv'; apply Hl, elem_of_cons; now right).
  unfold Request_Header_Set, set_Header, Header_Set. cbn [req_Header].
  apply lookup_insert_ne, Hl, elem_of_cons. now left.
Qed.



(** X11: the header loop adds nothing of its own: a header name that is the
    canonical form of no key of the mapping is sent as [http.NewRequest] left
    it; with a nil or empty mapping, the loop leaves the request as it was (the
    default [Content-Type] is not put back). *)
Theorem setHeaders_adds_nothing (req : http_Request) (headers : gomap string) (c : string) :
  (forall k v, (k, v) ∈ range headers -> CanonicalMIMEHeaderKey k <> c) ->
  req_Header (setHeaders req headers) !! c = req_Header req !! c
  /\ (range headers = [] -> setHeaders req headers = req).
Proof.
  intros H. split.
  - unfold setHeaders. apply set_headers_untouched.
    intros [k v] Hkv. cbn [fst]. now apply (H k v).
  - unfold setHeaders. now intros ->.
Qed.

End Request.

Lemma outboundRequest_fields_witness :
  exists req,
    @outboundRequest Demo.demoLib
      (mkHttpRequests "" "https://h.io:/a?x=1" None [] 0 "k=v" "q=1") = ([], Ret (Some req))
    /\ req_Method req = "GET" /\ req_Body req = "k=v" /\ req_ContentLength req = 3
    /\ req_Host req = "h.io" /\ RawQuery (req_URL req) = "q=1".
Proof.
  eexists. split; [reflexivity|].
  destruct (@outboundRequest_fields Demo.demoLib
              (mkHttpRequests "" "https://h.io:/a?x=1" None [] 0 "k=v" "q=1") [] _ eq_refl)
    as (_ & Hm & _ & Hb & Hl & _).
  split; [exact Hm|]. split; [exact Hb|]. split; [exact Hl|]. split; reflexivity.
Defined.


Lemma setHeaders_adds_nothing_witness :
  req_Header
    (setHeaders (mkRequest "GET" (mkURL "https" "" None "h.io" "/a" "" false false "" "" "")
                   ∅ "" 0 "h.io") (Some {["x-id" := "7"]})) !! "Content-Type"
  = (∅ : http_Header) !! "Content-Type"
  /\ (range (Some ({["x-id" := "7"]} : gmap string string)) = [] ->
      setHeaders (mkRequest "GET" (mkURL "https" "" None "h.io" "/a" "" false false "" "" "")
                    ∅ "" 0 "h.io") (Some {["x-id" := "7"]})
      = mkRequest "GET" (mkURL "https" "" None "h.io" "/a" "" false false "" "" "")
          ∅ "" 0 "h.io").
Proof.
  apply (setHeaders_adds_nothing
           (mkRequest "GET" (mkURL "https" "" None "h.io" "/a" "" false false "" "" "")
              ∅ "" 0 "h.io") (Some {["x-id" := "7"]}) "Content-Type").
  intros k v H. cbn [range] in H. rewrite map_to_list_singleton in H.
  apply list_elem_of_singleton in H. injection H as -> ->. discriminate.
Defined.

(** ** Cookies *)

Section CookieLoop.
Context `{L : StdLib}.

Lemma Header_Get_Set (h : http_Header) (key value : string) :
  Header_Get (Header_Set h key value) key = value.
Proof. unfold Header_Get, Header_Set. now rewrite lookup_insert_eq. Qed.

Lemma cookie_pair_not_empty (c : http_Cookie) :
  (String.length (cookie_pair c) =? 0)%nat = false.
Proof.
  unfold cookie_pair. rewrite length_append, append_cons. cbn [String.length].
  apply Nat.eqb_neq. lia.
Qed.

Lemma concat_cons_cons (sep x y : string) (l : list string) :
  String.concat sep (x :: y :: l) = x +:+ sep +:+ String.concat sep (y :: l).
Proof. reflexivity. Qed.

Lemma addCookies_line (cs : list http_Cookie) :
  forall req : http_Request,
  exists req' : http_Request,
    addCookies req (Some <$> cs) = Ret req'
    /\ Header_Get (req_Header req') "Cookie"
       = match cs with
         | [] => Header_Get (req_Header req) "Cookie"
         | _ :: _ =>
             (if (String.length (Header_Get (req_Header req) "Cookie") =? 0)%nat then ""
              else Header_Get (req_Header req) "Cookie" +:+ "; ")
               +:+ String.concat "; " (cookie_pair <$> cs)
         end
    /\ (forall c, c <> "Cookie" -> req_Header req' !! c = req_Header req !! c).
Proof.
  induction cs as [|c cs IH]; intros req.
  - exists req. repeat split.
  - rewrite fmap_cons. cbn [addCookies AddCookie].
    fold (cookie_pair c). set (old := Header_Get (req_Header req) "Cookie").
    set (line := if (String.length old =? 0)%nat then cookie_pair c
                 else old +:+ "; " +:+ cookie_pair c).
    assert (Hstep : (if (String.length old =? 0)%nat
                     then Ret (Request_Header_Set req "Cookie" (cookie_pair c))
                     else Ret (Request_Header_Set req "Cookie" (old +:+ "; " +:+ cookie_pair c)))
                    = Ret (Request_Header_Set req "Cookie" line))
      by (unfold line; now destruct (String.length old =? 0)%nat).
    rewrite Hstep. cbn [bind].
    destruct (IH (Request_Header_Set req "Cookie" line)) as (req' & Hr & Hg & Ho).
    exists req'. split; [exact Hr|].
    assert (Hline : Header_Get (req_Header (Request_Header_Set req "Cookie" line)) "Cookie" = line)
      by apply Header_Get_Set.
    assert (Hne : (String.length line =? 0)%nat = false).
    { unfold line. destruct (String.length old =? 0)%nat; [apply cookie_pair_not_empty|].
      rewrite !length_append. cbn [String.length].
      apply Nat.eqb_neq. pose proof (cookie_pair_not_empty c) as Hc.
      apply Nat.eqb_neq in Hc. lia. }
    split.
    + rewrite Hg, Hline. destruct cs as [|c2 cs].
      * unfold line. cbn [fmap list_fmap String.concat].
        destruct (String.length old =? 0)%nat; [reflexivity | now rewrite append_assoc].
      * rewrite Hne, !fmap_cons, concat_cons_cons. unfold line.
        destruct (String.length old =? 0)%nat; now rewrite ?append_assoc.
    + intros k Hk. rewrite (Ho k Hk).
      unfold Request_Header_Set, set_Header, Header_Set. cbn [req_Header].
      apply lookup_insert_ne. intros E. apply Hk. now rewrite <- E.
Qed.

(** X12: cookies, none of them nil, never make the loop panic, and they are
    attached in list order: the [Cookie] header ends as the [name=value] pairs
    joined by [; ], after what the header held before if it held anything; no
    other header is changed. *)
Theorem addCookies_in_order (req : http_Request) (cs : list http_Cookie) :
  exists req' : http_Request,
    addCookies req (Some <$> cs) = Ret req'
    /\ (Header_Get (req_Header req) "Cookie" = "" ->
        Header_Get (req_Header req') "Cookie" = String.concat "; " (cookie_pair <$> cs))
    /\ (cs <> [] -> Header_Get (req_Header req) "Cookie" <> "" ->
        Header_Get (req_Header req') "Cookie"
        = Header_Get (req_Header req) "Cookie" +:+ "; "
            +:+ String.concat "; " (cookie_pair <$> cs))
    /\ (forall c, c <> "Cookie" -> req_Header req' !! c = req_Header req !! c).
Proof.
  destruct (addCookies_line cs req) as (req' & Hr & Hg & Ho).
  exists req'. split; [exact Hr|]. split; [|split; [|exact Ho]].
  - intros He. rewrite Hg, He. now destruct cs.
  - intros Hcs Hne. rewrite Hg. destruct cs as [|c cs]; [contradiction|].
    destruct (Header_Get (req_Header req) "Cookie"); [contradiction|].
    cbn [String.length Nat.eqb]. now rewrite append_assoc.
Qed.

Lemma addCookies_nil_cookie (cookies : list (option http_Cookie)) :
  None ∈ cookies -> forall req, addCookies req cookies = Panic nil_dereference.
Proof.
  induction cookies as [|c cookies IH]; intros Hin req; [now apply elem_of_nil in Hin|].
  cbn [addCookies]. destruct c as [c|]; [|reflexivity].
  apply elem_of_cons in Hin as [Hin|Hin]; [discriminate|].
  unfold AddCookie. destruct (String.length _ =? 0)%nat; cbn [bind]; now apply IH.
Qed.

(** X13: a nil pointer in the cookie list is a further fatal point: once the
    URL has parsed and the request has been constructed, [createRequest] panics
    on the nil dereference in [AddCookie], and the client is never called. *)
Theorem nil_cookie_panics (d : HttpRequests) (urlObj : url_URL) (req : http_Request) :
  url_ParseRequestURI (URL d) = Ok urlObj ->
  NewRequest (Method d) (URL_String (set_RawQuery urlObj (Params d))) (PostBody d) = Ok req ->
  None ∈ Cookies d ->
  outboundRequest d = ([], Panic nil_dereference)
  /\ createRequest d = ([], Panic nil_dereference).
Proof.
  intros Hp Hn Hc.
  assert (E : outboundRequest d = ([], Panic nil_dereference)).
  { unfold outboundRequest. rewrite Hp, Hn, (addCookies_nil_cookie _ Hc). reflexivity. }
  split; [exact E|]. unfold createRequest. now rewrite E.
Qed.

End CookieLoop.

Lemma nil_cookie_panics_witness :
  @outboundRequest Demo.demoLib
    (mkHttpRequests "GET" "https://h.io/a" None [Some (mkCookie "sid" "1" false); None] 0 "" "")
  = ([], Panic nil_dereference)
  /\ @createRequest Demo.demoLib
       (mkHttpRequests "GET" "https://h.io/a" None [Some (mkCookie "sid" "1" false); None] 0 "" "")
     = ([], Panic nil_dereference).
Proof.
  eapply (@nil_cookie_panics Demo.demoLib).
  - reflexivity.
  - reflexivity.
  - apply elem_of_cons. right. apply elem_of_cons. now left.
Defined.

Lemma addCookies_in_order_example :
  exists req',
    @addCookies Demo.demoLib
      (mkRequest "GET" (mkURL "https" "" None "h.io" "/a" "" false false "" "" "") ∅ "" 0 "h.io")
      [Some (mkCookie "sid" "1" false); Some (mkCookie "t" "2" false)] = Ret req'
    /\ Header_Get (req_Header req') "Cookie" = "sid=1; t=2".
Proof. eexists. split; reflexivity. Qed.

(** ** Reading and decoding a response *)

Lemma Errorf_status (code : Z) :
  Errorf "request status code not 200，actually status code is %v" [AInt code]
  = "request status code not 200，actually status code is " +:+ fmt_v (AInt code).
Proof.
  transitivity ("request status code not 200，actually status code is "
                  +:+ fmt_v (AInt code) +:+ ""); [reflexivity|].
  now rewrite append_nil_r.
Qed.

Lemma Errorf_read (e : error) :
  Errorf "read from response.Body failed:%v" [AStringer e]
  = "read from response.Body failed:" +:+ e.
Proof.
  transitivity ("read from response.Body failed:" +:+ e +:+ ""); [reflexivity|].
  now rewrite append_nil_r.
Qed.

Lemma Errorf_to_bytes (e : error) :
  Errorf "response to bytes error:%v" [AStringer e] = "response to bytes error:" +:+ e.
Proof.
  transitivity ("response to bytes error:" +:+ e +:+ ""); [reflexivity|].
  now rewrite append_nil_r.
Qed.

Lemma ReadAll_Ok (b : Body) (bytes : string) :
  ReadAll b = Ok bytes
  <-> (closed b = false \/ after_close b = None) /\ failure b = None /\ bytes = data b.
Proof.
  unfold ReadAll, closed_error.
  destruct (closed b), (after_close b), (failure b); split;
    try discriminate;
    try (intros ([?|?] & ? & ?); discriminate);
    try (intros [= <-]; split; [tauto | split; reflexivity]);
    now intros (_ & _ & ->).
Qed.

(** X14: on a response that is not nil, [responseToBytes] closes the body and
    returns the bytes of the body exactly when the status code is 200 and the
    body reads to its end without error, which takes a body that is not yet
    closed or one that closing leaves readable; otherwise it returns an error
    that names the status code, or the read error. *)
Theorem responseToBytes_returns (r : http_Response) :
  exists ret : result string,
    responseToBytes (Some r) = Ret (close_body r, ret)
    /\ (forall bytes,
          ret = Ok bytes
          <-> StatusCode r = 200 /\ ReadAll (resp_Body r) = Ok bytes)
    /\ (forall bytes,
          ReadAll (resp_Body r) = Ok bytes
          <-> (closed (resp_Body r) = false \/ after_close (resp_Body r) = None)
              /\ failure (resp_Body r) = None /\ bytes = data (resp_Body r))
    /\ (StatusCode r <> 200 ->
        ret = Err ("request status code not 200，actually status code is "
                     +:+ fmt_v (AInt (StatusCode r))))
    /\ (forall e, StatusCode r = 200 -> ReadAll (resp_Body r) = Err e ->
                  ret = Err ("read from response.Body failed:" +:+ e)).
Proof.
  unfold responseToBytes, StatusOK.
  destruct (Z.eqb_spec (StatusCode r) 200) as [Hs|Hs]; cbn [negb].
  - destruct (ReadAll (resp_Body r)) as [bytes|e] eqn:Hr.
    + exists (Ok bytes). split; [reflexivity|].
      split; [|split; [|split; [congruence | discriminate]]].
      * intros b. split; [intros [= <-]; now split | now intros [_ ->]].
      * intros b. rewrite <- Hr. apply ReadAll_Ok.
    + eexists. split; [reflexivity|].
      split; [|split; [|split; [congruence|]]].
      * intros b. split; [discriminate | intros [_ ?]; discriminate].
      * intros b. rewrite <- Hr. apply ReadAll_Ok.
      * intros e' _ [= <-]. now rewrite Errorf_read.
  - eexists. split; [reflexivity|].
    split; [|split; [|split; [|contradiction]]].
    + intros b. split; [discriminate | intros [? _]; contradiction].
    + intros b. apply ReadAll_Ok.
    + intros _. now rewrite Errorf_status.
Qed.

Section Spent.
Context `{L : StdLib}.

Lemma closed_response_is_spent (r : http_Response) (v : GoValue) (e0 : error) :
  after_close (resp_Body r) = Some e0 ->
  ResponseToStruct (Some (close_body r)) v
  = Ret (close_body r, v,
         Some (if negb (StatusCode r =? StatusOK)
               then "response to bytes error:request status code not 200，actually status code is "
                      +:+ fmt_v (AInt (StatusCode r))
               else "response to bytes error:read from response.Body failed:" +:+ e0))
  /\ ResponseToMap (Some (close_body r)) = Ret (close_body r, None).
Proof.
  intros Ha. split.
  - unfold ResponseToStruct, responseToBytes, ReadAll, closed_error.
    cbn [close_body StatusCode resp_Body Close closed after_close].
    rewrite Ha. destruct (negb (StatusCode r =? StatusOK)).
    + now rewrite Errorf_to_bytes, Errorf_status.
    + now rewrite Errorf_to_bytes, Errorf_read.
  - unfold ResponseToMap, Decoder_Decode, closed_error.
    cbn [close_body StatusCode resp_Body Close closed after_close].
    now rewrite Ha.
Qed.

Lemma ResponseToStruct_closes (r r1 : http_Response) (v v1 : GoValue) (err : option error) :
  ResponseToStruct (Some r) v = Ret (r1, v1, err) -> r1 = close_body r.
Proof.
  unfold ResponseToStruct, responseToBytes.
  destruct (negb _); [now intros [= <- _ _]|].
  destruct (ReadAll _); [|now intros [= <- _ _]].
  destruct (FastJsonUnMarshal _ _) as [v' [e|]]; now intros [= <- _ _].
Qed.

Lemma ResponseToMap_closes (r r1 : http_Response) (m : gomap GoValue) :
  ResponseToMap (Some r) = Ret (r1, m) -> r1 = close_body r.
Proof.
  unfold ResponseToMap. destruct (Decoder_Decode _); now intros [= <- _].
Qed.

(** X15: a response whose body cannot be read once it is closed (reads then
    fail with [e0], as for the bodies the transport returns for a response with
    content) can be decoded once: on the response that either decoder leaves
    behind, [ResponseToStruct] returns an error, the status error or the
    wrapped [e0], and leaves its target as it was, and [ResponseToMap]
    returns nil, whatever the body held. *)
Theorem decoded_response_is_spent (r r1 : http_Response) (v2 : GoValue) (e0 : error) :
  after_close (resp_Body r) = Some e0 ->
  (exists v v1 err, ResponseToStruct (Some r) v = Ret (r1, v1, err))
  \/ (exists m, ResponseToMap (Some r) = Ret (r1, m)) ->
  ResponseToStruct (Some r1) v2
  = Ret (r1, v2,
         Some (if negb (StatusCode r =? StatusOK)
               then "response to bytes error:request status code not 200，actually status code is "
                      +:+ fmt_v (AInt (StatusCode r))
               else "response to bytes error:read from response.Body failed:" +:+ e0))
  /\ ResponseToMap (Some r1) = Ret (r1, None).
Proof.
  intros Ha H.
  assert (E : r1 = close_body r).
  { destruct H as [(v & v1 & err & H)|(m & H)].
    - now apply ResponseToStruct_closes in H.
    - now apply ResponseToMap_closes in H. }
  subst r1. now apply closed_response_is_spent.
Qed.

(** X16: [ResponseToStruct] checks the status and reads the body before it
    unmarshals anything: with a status code other than 200, or with a body that
    does not read to its end, the target is left as it was and the error text
    is the wrapped status or read error, whatever the body holds. *)
Theorem ResponseToStruct_early_errors (r : http_Response) (v : GoValue) :
  (StatusCode r <> 200 ->
   ResponseToStruct (Some r) v
   = Ret (close_body r, v,
          Some ("response to bytes error:request status code not 200，actually status code is "
                  +:+ fmt_v (AInt (StatusCode r)))))
  /\ (forall e, StatusCode r = 200 -> ReadAll (resp_Body r) = Err e ->
                ResponseToStruct (Some r) v
                = Ret (close_body r, v,
                       Some ("response to bytes error:read from response.Body failed:" +:+ e))).
Proof.
  unfold ResponseToStruct, responseToBytes, StatusOK. split.
  - intros Hs. destruct (Z.eqb_spec (StatusCode r) 200) as [|_]; [contradiction|].
    cbn [negb]. now rewrite Errorf_to_bytes, Errorf_status.
  - intros e Hs Hr. destruct (Z.eqb_spec (StatusCode r) 200) as [_|]; [|contradiction].
    cbn [negb]. rewrite Hr. now rewrite Errorf_to_bytes, Errorf_read.
Qed.

End Spent.

Lemma decoded_response_is_spent_witness :
  @ResponseToStruct Demo.demoLib (Some (mkResponse 200 (mkBody "17" None true))) (Demo.VNum 0)
  = Ret (mkResponse 200 (mkBody "17" None true), Demo.VNum 0,
         Some ("response to bytes error:read from response.Body failed:"
                 +:+ "http: read on closed response body"))
  /\ @ResponseToMap Demo.demoLib (Some (mkResponse 200 (mkBody "17" None true)))
     = Ret (mkResponse 200 (mkBody "17" None true), None).
Proof.
  apply (@decoded_response_is_spent Demo.demoLib (mkResponse 200 (mkBody "17" None false))
           (mkResponse 200 (mkBody "17" None true)) (Demo.VNum 0)
           "http: read on closed response body").
  - reflexivity.
  - left. exists (Demo.VNum 0), (Demo.VNum 17), None. reflexivity.
Defined.

(** A body that closing leaves readable ([http.NoBody]) is not spent by a
    decoder: the status check and the read go through again. *)
Lemma NoBody_reads_after_Close :
  ReadAll (Close (mkReadCloser "" None false None)) = Ok "".
Proof. reflexivity. Qed.

Lemma ResponseToStruct_early_errors_witness :
  @ResponseToStruct Demo.demoLib (Some (mkResponse 404 (mkBody "17" None false))) (Demo.VNum 0)
  = Ret (mkResponse 404 (mkBody "17" None true), Demo.VNum 0,
         Some ("response to bytes error:request status code not 200，actually status code is "
                 +:+ "404"))
  /\ @ResponseToStruct Demo.demoLib
       (Some (mkResponse 200 (mkBody "1" (Some "unexpected EOF") false))) (Demo.VNum 0)
     = Ret (mkResponse 200 (mkBody "1" (Some "unexpected EOF") true), Demo.VNum 0,
            Some ("response to bytes error:read from response.Body failed:" +:+ "unexpected EOF")).
Proof.
  split.
  - apply (proj1 (@ResponseToStruct_early_errors Demo.demoLib
                    (mkResponse 404 (mkBody "17" None false)) (Demo.VNum 0))).
    discriminate.
  - apply (proj2 (@ResponseToStruct_early_errors Demo.demoLib
                    (mkResponse 200 (mkBody "1" (Some "unexpected EOF") false)) (Demo.VNum 0))
             "unexpected EOF"); reflexivity.
Defined.

(** ** From the body options to the request *)

Section BodySent.
Context `{L : StdLib}.

(** X17: the body set by the last body option reaches the request unchanged:
    with [WithPostStringBody data] followed only by options that leave the body
    alone, every request [HttpCaller] hands to the client has [data] as its
    body and the length of [data] as its content length; with
    [WithPostJsonBody] it is the marshalled text. *)
Theorem body_sent_verbatim (method url body : string) (o : Option)
    (before after : list Option) (out : list string) (req : http_Request) :
  (o = WithPostStringBody body
   \/ exists data, o = WithPostJsonBody data /\ json_Marshal data = Ok body) ->
  Forall (preserves PostBody) after ->
  HttpCaller_request method url (before ++ o :: after) = (out, Ret (Some req)) ->
  req_Body req = body /\ req_ContentLength req = Z.of_nat (String.length body).
Proof.
  intros Ho Hafter. unfold HttpCaller_request.
  destruct (applyOptions (before ++ o :: after) (newRequestIns method url)) as [d|msg] eqn:Ha;
    [|discriminate].
  assert (Hb : PostBody d = body).
  { apply (applyOptions_value_survives PostBody body o before after
             (newRequestIns method url) d); [|exact Hafter|exact Ha].
    destruct Ho as [->|(data & -> & Hm)]; intros a a'.
    - now intros [= <-].
    - unfold WithPostJsonBody. rewrite Hm. now intros [= <-]. }
  intros Hr. apply outboundRequest_shape in Hr as (_ & _ & _ & Hbody & Hlen & _).
  now rewrite Hbody, Hlen, Hb.
Qed.

End BodySent.

Lemma body_sent_verbatim_witness :
  req_Body
    (mkRequest "POST" (mkURL "https" "" None "h.io" "/a" "" false false "" "" "")
       {["Content-Type" := ["application/x-www-form-urlencoded"]]} "a=1&b=%20" 9 "h.io")
  = "a=1&b=%20"
  /\ req_ContentLength
       (mkRequest "POST" (mkURL "https" "" None "h.io" "/a" "" false false "" "" "")
          {["Content-Type" := ["application/x-www-form-urlencoded"]]} "a=1&b=%20" 9 "h.io")
     = Z.of_nat (String.length "a=1&b=%20").
Proof.
  apply (@body_sent_verbatim Demo.demoLib "post" "https://h.io/a" "a=1&b=%20"
           (WithPostStringBody "a=1&b=%20")
           [WithPostStringBody "old"]
           [WithHeaders (Some {["content-type" := "application/x-www-form-urlencoded"]})]
           []).
  - now left.
  - repeat constructor. intros d d'. now intros [= <-].
  - vm_compute. reflexivity.
Defined.
